(** * ledger-common: signature suites, suite registry and credential builder

    A shallow embedding of [proof/signaturesuite.go] and
    [credential/builder.go], with the properties of the suite registry,
    of the composite (main/backup) suite and of the selective-disclosure
    credential builder.

    Go interface values are modelled by their dynamic type and value, a
    nil interface by [None].  Effects (external signer and verifier,
    clock, randomness) are threaded through an explicit world.

    The interface [SignatureSuite] declares [Sign(provable, signer)],
    the builder calls [Sign] with the proof options as a third argument;
    the model gives [Sign] the three arguments of the call and lets the
    composite forward them to its Main suite. *)

From stdpp Require Import gmap strings list fin_maps.

Set Default Proof Using "Type".
Open Scope string_scope.
Open Scope list_scope.

(** ** Errors *)

(** A Go [error] is represented by its message. *)
Definition error := string.

Definition unsupported_signature_type : error := "unsupported signature type".

(** ** Enumerations of package proof *)

(** [SignatureType] is a string type with four declared constants.  The
    constants are the cases of one switch and hence pairwise distinct;
    every other string value is an [OtherSignatureType]. *)
Inductive SignatureType :=
  | JCSEdSignatureType
  | WorkEdSignatureType
  | Ed25519SignatureType
  | EcdsaSecp256k1SignatureType
  | OtherSignatureType (name : string).

(** [ModelVersion] has the two declared constants [V1] and [V2]; the
    switches of the registry treat every other value alike. *)
Inductive ModelVersion := V1 | V2 | UnknownVersion.

Inductive KeyType :=
  | Ed25519KeyType
  | EcdsaSecp256k1KeyType
  | OtherKeyType (name : string).

(** The strategy implementations are structs without fields. *)
Inductive ProofFactory := proofFactoryV1 | proofFactoryV2.
Inductive Canonicalizer := JCSCanonicalizer.
Inductive Marshaler := EmbeddedProofMarshaler | WithoutProofMarshaler.
Inductive Encoder := Base64Encoder.
Inductive OptionsAppender := NonceAppender.

#[global] Instance SignatureType_eq_dec : EqDecision SignatureType.
Proof. solve_decision. Defined.
#[global] Instance ModelVersion_eq_dec : EqDecision ModelVersion.
Proof. solve_decision. Defined.
#[global] Instance KeyType_eq_dec : EqDecision KeyType.
Proof. solve_decision. Defined.
#[global] Instance ProofFactory_eq_dec : EqDecision ProofFactory.
Proof. solve_decision. Defined.
#[global] Instance Canonicalizer_eq_dec : EqDecision Canonicalizer.
Proof. solve_decision. Defined.
#[global] Instance Marshaler_eq_dec : EqDecision Marshaler.
Proof. solve_decision. Defined.
#[global] Instance Encoder_eq_dec : EqDecision Encoder.
Proof. solve_decision. Defined.
#[global] Instance OptionsAppender_eq_dec : EqDecision OptionsAppender.
Proof. solve_decision. Defined.

(** ** Suites *)

(** The configuration struct of a linked-data signature suite.  The
    fields are the ones the source's literals and copy helpers set; a
    strategy field the literals may leave out is an interface that can
    be nil. *)
Record LDSignatureSuite := mkLDSignatureSuite {
  SignatureType_ : SignatureType;
  KeyType_ : KeyType;
  ProofFactory_ : ProofFactory;
  Canonicalizer_ : option Canonicalizer;
  Marshaler_ : Marshaler;
  MessageDigest_ : option Encoder;
  OptionsAppender_ : option OptionsAppender
}.

#[global] Instance LDSignatureSuite_eq_dec : EqDecision LDSignatureSuite.
Proof. solve_decision. Defined.

(** A [SignatureSuite] interface value: an [LDSignatureSuite] or a
    [compositeSignatureSuite], whose two fields are interface values
    again. *)
Inductive SignatureSuite :=
  | LDSuite (s : LDSignatureSuite)
  | CompSuite (c : compositeSignatureSuite)
with compositeSignatureSuite :=
  | mkComposite (Main Backup : SignatureSuite).

Definition Main (c : compositeSignatureSuite) : SignatureSuite :=
  match c with mkComposite m _ => m end.
Definition Backup (c : compositeSignatureSuite) : SignatureSuite :=
  match c with mkComposite _ b => b end.

(** The type assertion of an interface value to a pointer to
    [LDSignatureSuite]; [None] stands for the panic of a failed
    assertion. *)
Definition assertLD (x : SignatureSuite) : option LDSignatureSuite :=
  match x with LDSuite s => Some s | CompSuite _ => None end.

(** [backup := *suite; backup.Canonicalizer = nil]. *)
Definition withAndWithoutCanonicalizer (suite : LDSignatureSuite)
  : compositeSignatureSuite :=
  let backup :=
    {| SignatureType_ := SignatureType_ suite;
       KeyType_ := KeyType_ suite;
       ProofFactory_ := ProofFactory_ suite;
       Canonicalizer_ := None;
       Marshaler_ := Marshaler_ suite;
       MessageDigest_ := MessageDigest_ suite;
       OptionsAppender_ := OptionsAppender_ suite |} in
  mkComposite (LDSuite suite) (LDSuite backup).

(** [updated := *suite; updated.ProofFactory = &proofFactoryV2{}]. *)
Definition withV2Proofs (suite : LDSignatureSuite) : LDSignatureSuite :=
  {| SignatureType_ := SignatureType_ suite;
     KeyType_ := KeyType_ suite;
     ProofFactory_ := proofFactoryV2;
     Canonicalizer_ := Canonicalizer_ suite;
     Marshaler_ := Marshaler_ suite;
     MessageDigest_ := MessageDigest_ suite;
     OptionsAppender_ := OptionsAppender_ suite |}.

(** [updated := *suite; updated.MessageDigest = &Base64Encoder{}]. *)
Definition withB64Digest (suite : LDSignatureSuite) : LDSignatureSuite :=
  {| SignatureType_ := SignatureType_ suite;
     KeyType_ := KeyType_ suite;
     ProofFactory_ := ProofFactory_ suite;
     Canonicalizer_ := Canonicalizer_ suite;
     Marshaler_ := Marshaler_ suite;
     MessageDigest_ := Some Base64Encoder;
     OptionsAppender_ := OptionsAppender_ suite |}.

(** Modelled from the spec: the method [LDSignatureSuite.Type] is not
    part of the source at hand; by the suite contract
    [Type() -> SignatureType] it reports the signature type the suite
    is configured with. *)
Definition LDSignatureSuite_Type (s : LDSignatureSuite) : SignatureType :=
  SignatureType_ s.

(** [Type]: the composite reports [s.Main.Type()]. *)
Fixpoint Type_ (x : SignatureSuite) : SignatureType :=
  match x with
  | LDSuite s => LDSignatureSuite_Type s
  | CompSuite (mkComposite m _) => Type_ m
  end.

Definition compositeSignatureSuite_Type (s : compositeSignatureSuite)
  : SignatureType := Type_ (Main s).

(** ** The package-level suites *)

Definition jcsEd25519SignatureSuite : LDSignatureSuite :=
  {| SignatureType_ := JCSEdSignatureType;
     KeyType_ := Ed25519KeyType;
     ProofFactory_ := proofFactoryV2;
     Canonicalizer_ := Some JCSCanonicalizer;
     Marshaler_ := EmbeddedProofMarshaler;
     MessageDigest_ := None;
     OptionsAppender_ := None |}.

(** The literal handed to [withAndWithoutCanonicalizer] for
    [workSignatureSuiteV1]; the later variables read it back by
    asserting [workSignatureSuiteV1.Main] to an [LDSignatureSuite]
    pointer. *)
Definition workSignatureSuiteV1_Main : LDSignatureSuite :=
  {| SignatureType_ := WorkEdSignatureType;
     KeyType_ := Ed25519KeyType;
     ProofFactory_ := proofFactoryV1;
     Canonicalizer_ := Some JCSCanonicalizer;
     Marshaler_ := WithoutProofMarshaler;
     MessageDigest_ := None;
     OptionsAppender_ := Some NonceAppender |}.

Definition workSignatureSuiteV1 : compositeSignatureSuite :=
  withAndWithoutCanonicalizer workSignatureSuiteV1_Main.

Definition workSignatureSuiteV2 : compositeSignatureSuite :=
  withAndWithoutCanonicalizer (withV2Proofs workSignatureSuiteV1_Main).

Definition workSignatureSuiteV1B64 : compositeSignatureSuite :=
  withAndWithoutCanonicalizer (withB64Digest workSignatureSuiteV1_Main).

Definition workSignatureSuiteV2B64 : compositeSignatureSuite :=
  withAndWithoutCanonicalizer
    (withV2Proofs (withB64Digest workSignatureSuiteV1_Main)).

Definition ed25519SignatureSuiteV1_Main : LDSignatureSuite :=
  {| SignatureType_ := Ed25519SignatureType;
     KeyType_ := Ed25519KeyType;
     ProofFactory_ := proofFactoryV1;
     Canonicalizer_ := Some JCSCanonicalizer;
     Marshaler_ := WithoutProofMarshaler;
     MessageDigest_ := None;
     OptionsAppender_ := Some NonceAppender |}.

Definition ed25519SignatureSuiteV1 : compositeSignatureSuite :=
  withAndWithoutCanonicalizer ed25519SignatureSuiteV1_Main.

Definition ed25519SignatureSuiteV2 : compositeSignatureSuite :=
  withAndWithoutCanonicalizer (withV2Proofs ed25519SignatureSuiteV1_Main).

Definition ed25519SignatureSuiteV1B64 : compositeSignatureSuite :=
  withAndWithoutCanonicalizer (withB64Digest ed25519SignatureSuiteV1_Main).

Definition ed25519SignatureSuiteV2B64 : compositeSignatureSuite :=
  withAndWithoutCanonicalizer
    (withV2Proofs (withB64Digest ed25519SignatureSuiteV1_Main)).

Definition secp256K1SignatureSuite : LDSignatureSuite :=
  {| SignatureType_ := EcdsaSecp256k1SignatureType;
     KeyType_ := EcdsaSecp256k1KeyType;
     ProofFactory_ := proofFactoryV1;
     Canonicalizer_ := Some JCSCanonicalizer;
     Marshaler_ := WithoutProofMarshaler;
     MessageDigest_ := None;
     OptionsAppender_ := Some NonceAppender |}.

(** ** The registry *)

Record SignatureSuiteFactory := mkFactory {
  JCSEd25519 : option SignatureSuite;
  WorkEd25519 : option SignatureSuite;
  WorkEd25519v2 : option SignatureSuite;
  Ed25519 : option SignatureSuite;
  Ed25519v2 : option SignatureSuite;
  Secp256k1 : option SignatureSuite
}.

Definition SignatureSuites : SignatureSuiteFactory :=
  {| JCSEd25519 := Some (LDSuite jcsEd25519SignatureSuite);
     WorkEd25519 := Some (CompSuite workSignatureSuiteV1);
     WorkEd25519v2 := Some (CompSuite workSignatureSuiteV2);
     Ed25519 := Some (CompSuite ed25519SignatureSuiteV1);
     Ed25519v2 := Some (CompSuite ed25519SignatureSuiteV2);
     Secp256k1 := Some (LDSuite secp256K1SignatureSuite) |}.

Definition getSuiteV1 (f : SignatureSuiteFactory) (signatureType : SignatureType)
  : option SignatureSuite :=
  match signatureType with
  | EcdsaSecp256k1SignatureType => Secp256k1 f
  | WorkEdSignatureType => WorkEd25519 f
  | Ed25519SignatureType => Ed25519 f
  | _ => None
  end.

Definition getSuiteV2 (f : SignatureSuiteFactory) (signatureType : SignatureType)
  : option SignatureSuite :=
  match signatureType with
  | JCSEdSignatureType => JCSEd25519 f
  | WorkEdSignatureType => WorkEd25519v2 f
  | Ed25519SignatureType => Ed25519v2 f
  | _ => None
  end.

(** The named results [(suite, err)]: both start out nil, the switch has
    no default case. *)
Definition GetSuite (f : SignatureSuiteFactory) (signatureType : SignatureType)
    (modelVersion : ModelVersion) : option SignatureSuite * option error :=
  let suite :=
    match modelVersion with
    | V1 => getSuiteV1 f signatureType
    | V2 => getSuiteV2 f signatureType
    | UnknownVersion => None
    end in
  match suite with
  | None => (None, Some unsupported_signature_type)
  | Some s => (Some s, None)
  end.

Definition getSuiteV1Cred (f : SignatureSuiteFactory) (signatureType : SignatureType)
  : option SignatureSuite :=
  match signatureType with
  | Ed25519SignatureType => Some (CompSuite ed25519SignatureSuiteV1B64)
  | WorkEdSignatureType => Some (CompSuite workSignatureSuiteV1B64)
  | _ => None
  end.

Definition getSuiteV2Cred (f : SignatureSuiteFactory) (signatureType : SignatureType)
  : option SignatureSuite :=
  match signatureType with
  | Ed25519SignatureType => Some (CompSuite ed25519SignatureSuiteV2B64)
  | WorkEdSignatureType => Some (CompSuite workSignatureSuiteV2B64)
  | JCSEdSignatureType => Some (LDSuite jcsEd25519SignatureSuite)
  | _ => None
  end.

(** ** Proofs *)

Inductive ProofPurpose :=
  | NoPurpose
  | AssertionMethodPurpose
  | OtherPurpose (name : string).

Record ProofOptions := mkProofOptions { ProofPurpose_ : ProofPurpose }.

(** Modelled from the spec: the struct [Proof] is not part of the source
    at hand.  The signature metadata attached to a document: creation
    timestamp, key reference ([creator] or [verificationMethod]), nonce,
    signature value and signature-type tag, with the purpose the
    caller's options give.  A string field of the wire shape is present
    when it is not empty. *)
Record Proof := mkProof {
  Created : string;
  Creator : string;
  VerificationMethod : string;
  Nonce : string;
  SignatureValue : string;
  ProofType : SignatureType;
  Purpose : ProofPurpose
}.

#[global] Instance ProofPurpose_eq_dec : EqDecision ProofPurpose.
Proof. solve_decision. Defined.
#[global] Instance Proof_eq_dec : EqDecision Proof.
Proof. solve_decision. Defined.

Definition present (field : string) : bool :=
  match field with EmptyString => false | String _ _ => true end.

(** Modelled from the spec: the method [Proof.ModelVersion] is called by
    the registry but is not part of the source at hand.  The presence of
    [verificationMethod] rather than [creator] is the sole signal of the
    proof-model version; a proof carrying both fields or neither is
    rejected rather than defaulted to V1 or V2.  The method returns a
    single [ModelVersion] (its result is passed on to [GetSuite] as
    is), so the rejected shapes yield a value that is neither [V1] nor
    [V2]. *)
Definition Proof_ModelVersion (p : Proof) : ModelVersion :=
  match present (Creator p), present (VerificationMethod p) with
  | true, false => V1
  | false, true => V2
  | true, true => UnknownVersion
  | false, false => UnknownVersion
  end.

Definition GetSuiteForProof (f : SignatureSuiteFactory) (proof : Proof)
  : option SignatureSuite * option error :=
  GetSuite f (ProofType proof) (Proof_ModelVersion proof).

Definition GetSuiteForCredentialProof (f : SignatureSuiteFactory) (proof : Proof)
  : option SignatureSuite * option error :=
  let suite :=
    match Proof_ModelVersion proof with
    | V1 => getSuiteV1Cred f (ProofType proof)
    | V2 => getSuiteV2Cred f (ProofType proof)
    | UnknownVersion => None
    end in
  match suite with
  | None => (None, Some unsupported_signature_type)
  | Some s => (Some s, None)
  end.

(** Modelled from the spec: [GetSuiteForCredentials] is called by the
    credential builder but is not part of the source at hand.  It
    resolves the suite for (signature type, model version) via the
    credential-proof registry, the separate lookup table of
    [getSuiteV1Cred] and [getSuiteV2Cred], and reports an unsupported
    combination as the explicit error. *)
Definition GetSuiteForCredentials (f : SignatureSuiteFactory)
    (signatureType : SignatureType) (modelVersion : ModelVersion)
  : option SignatureSuite * option error :=
  let suite :=
    match modelVersion with
    | V1 => getSuiteV1Cred f signatureType
    | V2 => getSuiteV2Cred f signatureType
    | UnknownVersion => None
    end in
  match suite with
  | None => (None, Some unsupported_signature_type)
  | Some s => (Some s, None)
  end.

(** The message digest a suite is configured with is the base64 one; a
    composite needs it on both of its suites. *)
Fixpoint usesB64Digest (x : SignatureSuite) : bool :=
  match x with
  | LDSuite s => bool_decide (MessageDigest_ s = Some Base64Encoder)
  | CompSuite (mkComposite m b) => usesB64Digest m && usesB64Digest b
  end.

(** The (signature type, model version) pairs of the general table. *)
Definition supported (t : SignatureType) (v : ModelVersion) : bool :=
  match t, v with
  | JCSEdSignatureType, V2 => true
  | WorkEdSignatureType, (V1 | V2) => true
  | Ed25519SignatureType, (V1 | V2) => true
  | EcdsaSecp256k1SignatureType, V1 => true
  | _, _ => false
  end.

(** The composite suites among the package-level variables. *)
Definition registryComposites : list compositeSignatureSuite :=
  [ workSignatureSuiteV1; workSignatureSuiteV2;
    workSignatureSuiteV1B64; workSignatureSuiteV2B64;
    ed25519SignatureSuiteV1; ed25519SignatureSuiteV2;
    ed25519SignatureSuiteV1B64; ed25519SignatureSuiteV2B64 ].

(** [b] is [m] with the canonicalizer taken out and nothing else
    changed. *)
Definition sameButCanonicalizer (m b : LDSignatureSuite) : Prop :=
  SignatureType_ b = SignatureType_ m ∧
  KeyType_ b = KeyType_ m ∧
  ProofFactory_ b = ProofFactory_ m ∧
  Marshaler_ b = Marshaler_ m ∧
  MessageDigest_ b = MessageDigest_ m ∧
  OptionsAppender_ b = OptionsAppender_ m ∧
  Canonicalizer_ b = None.

(** ** Effects

    The external signer and verifier, the clock and the source of
    randomness live in a state of type [W].  The world adds the log of
    the calls made on [LDSignatureSuite] methods, in call order. *)

Inductive Call :=
  | CallSign (s : LDSignatureSuite)
  | CallVerify (s : LDSignatureSuite).

Record World (W : Type) := mkWorld { calls : list Call; ext : W }.
Arguments mkWorld {W} _ _.
Arguments calls {W} _.
Arguments ext {W} _.

Definition bytes := string.

(** Modelled from the spec: the interfaces [Signer] and [Verifier] are
    not part of the source at hand.  The capabilities of section 6:
    [sign(keyType, signatureType, digestBytes)] gives the signature
    bytes or an error, [verify(keyReference, signatureType, digestBytes,
    signatureBytes)] gives ok or an error; the signer names the key its
    proofs refer to. *)
Record Signer (W : Type) := mkSigner {
  signer_KeyRef : string;
  signer_sign : KeyType → SignatureType → bytes → W → (error + bytes) * W
}.
Arguments mkSigner {W} _ _.
Arguments signer_KeyRef {W} _.
Arguments signer_sign {W} _ _ _ _ _.

Record Verifier (W : Type) := mkVerifier {
  verifier_verify :
    string → SignatureType → bytes → bytes → W → option error * W
}.
Arguments mkVerifier {W} _.
Arguments verifier_verify {W} _ _ _ _ _ _.

(** Modelled from the spec: the interface [Provable] is not part of the
    source at hand.  A document that carries zero or one proof in a
    mutable proof slot, the only part of it a suite can write.  Go's
    [SetProof] writes the slot in place; here it returns the updated
    document. *)
Class Provable (D : Type) := {
  GetProof : D → option Proof;
  SetProof : option Proof → D → D;
  GetProof_SetProof : ∀ p d, GetProof (SetProof p d) = p;
  SetProof_SetProof : ∀ p q d, SetProof p (SetProof q d) = SetProof p d;
  SetProof_GetProof : ∀ d, SetProof (GetProof d) d = d
}.

(** Modelled from the spec: the methods [Sign] and [Verify] of
    [LDSignatureSuite] are not part of the source at hand; the suite
    interface is stated over any implementation of them that meets the
    contract of section 4.1.  [Sign] reaches the document through its proof slot only, so
    it yields the content of the slot as the call leaves it, together
    with the error; by step 8 of the Sign algorithm a call that returns
    no error has attached the finished proof.  The call from the
    builder passes the proof options as a third argument, as the suite
    contract has it. *)
Class LDMethods (W D : Type) := {
  LDSignatureSuite_Sign :
    LDSignatureSuite → D → Signer W → ProofOptions → W →
    (option Proof * option error) * W;
  LDSignatureSuite_Verify :
    LDSignatureSuite → D → Verifier W → W → option error * W;
  LDSignatureSuite_Sign_attaches : ∀ s d signer options w slot w',
    LDSignatureSuite_Sign s d signer options w = ((slot, None), w') →
    is_Some slot
}.

(** One call on an [LDSignatureSuite] method: it runs on the external
    state and is entered in the log. *)
Definition invoke {W A : Type} (c : Call) (f : W → A * W) (w : World W)
  : A * World W :=
  let '(r, e) := f (ext w) in
  (r, {| calls := calls w ++ [c]; ext := e |}).

(** [Sign]: the composite signs with [s.Main] only. *)
Fixpoint Sign {W D : Type} `{!Provable D, !LDMethods W D} (x : SignatureSuite)
    (provable : D) (signer : Signer W) (options : ProofOptions) (w : World W)
  : (D * option error) * World W :=
  match x with
  | LDSuite s =>
      let '((slot, err), w') :=
        invoke (CallSign s)
          (LDSignatureSuite_Sign s provable signer options) w in
      ((SetProof slot provable, err), w')
  | CompSuite (mkComposite m _) => Sign m provable signer options w
  end.

(** [Verify]: the composite returns [s.Backup.Verify] when
    [s.Main.Verify] gave an error, and nil otherwise. *)
Fixpoint Verify {W D : Type} `{!LDMethods W D} (x : SignatureSuite) (provable : D)
    (verifier : Verifier W) (w : World W) : option error * World W :=
  match x with
  | LDSuite s =>
      invoke (CallVerify s) (LDSignatureSuite_Verify s provable verifier) w
  | CompSuite (mkComposite m b) =>
      match Verify m provable verifier w with
      | (Some _, w') => Verify b provable verifier w'
      | (None, w') => (None, w')
      end
  end.

(** *** The suite algorithm of the specification *)

(** Modelled from the spec: the collaborators of an [LDSignatureSuite],
    none of them part of the source at hand: the clock, the nonce
    source, the serializer, the JCS canonicalizer and the base64
    encoder. *)
Class Strategies (W D : Type) := mkStrategies {
  now : W → string * W;
  freshNonce : W → string * W;
  marshal : D → error + bytes;
  canonicalizeJCS : bytes → error + bytes;
  base64 : bytes → bytes
}.
Arguments mkStrategies {W D} _ _ _ _ _.
Arguments now {W D} _ _.
Arguments freshNonce {W D} _ _.
Arguments marshal {W D} _ _.
Arguments canonicalizeJCS {W D} _ _.
Arguments base64 {W D} _ _.

(** Modelled from the spec: step 1 of the Sign algorithm, the proof
    skeleton of the suite's proof shape, with the caller's options
    merged in.  V1 carries [creator], V2 carries
    [verificationMethod]. *)
Definition proofSkeleton (s : LDSignatureSuite) (created keyRef : string)
    (options : ProofOptions) : Proof :=
  {| Created := created;
     Creator := match ProofFactory_ s with
                | proofFactoryV1 => keyRef | proofFactoryV2 => "" end;
     VerificationMethod := match ProofFactory_ s with
                           | proofFactoryV1 => "" | proofFactoryV2 => keyRef end;
     Nonce := "";
     SignatureValue := "";
     ProofType := SignatureType_ s;
     Purpose := ProofPurpose_ options |}.

Definition withNonce (n : string) (p : Proof) : Proof :=
  {| Created := Created p; Creator := Creator p;
     VerificationMethod := VerificationMethod p; Nonce := n;
     SignatureValue := SignatureValue p; ProofType := ProofType p;
     Purpose := Purpose p |}.

Definition withSignatureValue (v : string) (p : Proof) : Proof :=
  {| Created := Created p; Creator := Creator p;
     VerificationMethod := VerificationMethod p; Nonce := Nonce p;
     SignatureValue := v; ProofType := ProofType p;
     Purpose := Purpose p |}.

(** Modelled from the spec: steps 4 to 6 of the Sign algorithm on a
    document that carries the skeleton: serialize (with the proof
    stripped or left embedded), canonicalize or pass through, digest or
    pass through. *)
Definition signingInput {W D : Type} `{!Provable D} (S : Strategies W D)
    (s : LDSignatureSuite) (d : D) : error + bytes :=
  let serialized :=
    match Marshaler_ s with
    | WithoutProofMarshaler => marshal S (SetProof None d)
    | EmbeddedProofMarshaler => marshal S d
    end in
  match serialized with
  | inl e => inl e
  | inr raw =>
      let canonical :=
        match Canonicalizer_ s with
        | Some JCSCanonicalizer => canonicalizeJCS S raw
        | None => inr raw
        end in
      match canonical with
      | inl e => inl e
      | inr c =>
          inr (match MessageDigest_ s with
               | Some Base64Encoder => base64 S c
               | None => c
               end)
      end
  end.

(** Modelled from the spec: [LDSignatureSuite.Sign] is not part of the
    source at hand.  Steps 1 to 8 of the Sign algorithm of section 4.1;
    a failure at any step aborts with that step's error and leaves the
    proof slot of the document as it was. *)
Definition specSign {W D : Type} `{!Provable D} (S : Strategies W D)
    (s : LDSignatureSuite) (d : D) (signer : Signer W) (options : ProofOptions)
    (w : W) : (option Proof * option error) * W :=
  let '(created, w1) := now S w in
  let skeleton0 := proofSkeleton s created (signer_KeyRef signer) options in
  let '(skeleton, w2) :=
    match OptionsAppender_ s with
    | Some NonceAppender =>
        let '(n, w') := freshNonce S w1 in (withNonce n skeleton0, w')
    | None => (skeleton0, w1)
    end in
  match signingInput S s (SetProof (Some skeleton) d) with
  | inl e => ((GetProof d, Some e), w2)
  | inr digest =>
      match signer_sign signer (KeyType_ s) (SignatureType_ s) digest w2 with
      | (inl e, w3) => ((GetProof d, Some e), w3)
      | (inr sig, w3) => ((Some (withSignatureValue sig skeleton), None), w3)
      end
  end.

(** Modelled from the spec: the key reference of a proof, by the
    proof's own shape. *)
Definition keyReference (p : Proof) : string :=
  if present (VerificationMethod p) then VerificationMethod p else Creator p.

Definition missing_proof : error := "missing proof".

(** Modelled from the spec: [LDSignatureSuite.Verify] is not part of the
    source at hand.  It mirrors steps 1 to 6 of Sign on the attached
    proof with its signature value unset, then hands the digest, the
    key reference of the proof, the signature value and the signature
    type to the external verifier and returns its result. *)
Definition specVerify {W D : Type} `{!Provable D} (S : Strategies W D)
    (s : LDSignatureSuite) (d : D) (verifier : Verifier W) (w : W)
  : option error * W :=
  match GetProof d with
  | None => (Some missing_proof, w)
  | Some p =>
      match signingInput S s (SetProof (Some (withSignatureValue "" p)) d) with
      | inl e => (Some e, w)
      | inr digest =>
          verifier_verify verifier (keyReference p) (SignatureType_ s) digest
            (SignatureValue p) w
      end
  end.

Lemma specSign_attaches {W D : Type} `{!Provable D} (S : Strategies W D)
    s d signer options w slot w' :
  specSign S s d signer options w = ((slot, None), w') → is_Some slot.
Proof.
  unfold specSign. destruct (now S w) as [created w1].
  destruct (match OptionsAppender_ s with
            | Some NonceAppender => _ | None => _ end) as [skeleton w2].
  destruct (signingInput S s _) as [e|digest]; [discriminate|].
  destruct (signer_sign signer _ _ digest w2) as [[e|sig] w3]; [discriminate|].
  intros [= <- _]. eauto.
Qed.

#[global] Instance specMethods {W D : Type} `{!Provable D} `{S : !Strategies W D}
  : LDMethods W D :=
  {| LDSignatureSuite_Sign := specSign S;
     LDSignatureSuite_Verify := specVerify S;
     LDSignatureSuite_Sign_attaches := specSign_attaches S |}.

(** A verifier matches a signer when it accepts, under the signer's key
    reference, every signature the signer produces. *)
Definition matching {W : Type} (signer : Signer W) (verifier : Verifier W) : Prop :=
  ∀ kt st digest sig w w', signer_sign signer kt st digest w = (inr sig, w') →
    ∀ w0, (verifier_verify verifier (signer_KeyRef signer) st digest sig w0).1 = None.


(** ** Package credential *)

(** A claim value, a Go [interface{}] holding JSON-like data. *)
Inductive Value :=
  | VString (s : string)
  | VNumber (n : Z)
  | VBool (b : bool)
  | VNull.

#[global] Instance Value_eq_dec : EqDecision Value.
Proof. solve_decision. Defined.

(** Modelled from the spec: the struct [Metadata] is not part of the
    source at hand.  The descriptive header of a ledger object, with the
    fields of the metadata schema. *)
Record Metadata := mkMetadata {
  md_Type : string;
  md_ModelVersion : string;
  md_ID : string;
  md_Name : string;
  md_Author : string;
  md_Authored : string;
  md_Proof : option Proof
}.

(** The struct [VerifiableCredential], with the fields the builder
    sets: those of the embedded [UnsignedVerifiableCredential], and the
    proof slot.  A nil claim-proofs map is the empty map. *)
Record VerifiableCredential := mkVerifiableCredential {
  vc_Metadata : Metadata;
  CredentialSubject : gmap string Value;
  ClaimProofs : gmap string Proof;
  vc_Proof : option Proof
}.

Definition VerifiableCredential_SetProof (p : option Proof)
    (c : VerifiableCredential) : VerifiableCredential :=
  {| vc_Metadata := vc_Metadata c;
     CredentialSubject := CredentialSubject c;
     ClaimProofs := ClaimProofs c;
     vc_Proof := p |}.

#[global] Program Instance VerifiableCredential_Provable
  : Provable VerifiableCredential :=
  {| GetProof := vc_Proof; SetProof := VerifiableCredential_SetProof |}.
Next Obligation. by intros p []. Qed.
Next Obligation. by intros p q []. Qed.
Next Obligation. by intros []. Qed.

Definition SubjectIDAttribute : string := "id".

(** The builder; a pointer or interface field is [None] when nil, a
    nil [Data] map is [None]. *)
Record Builder (W : Type) := mkBuilder {
  SubjectDID : string;
  Data : option (gmap string Value);
  BMetadata : option Metadata;
  BSigner : option (Signer W);
  BSignatureType : SignatureType
}.
Arguments mkBuilder {W} _ _ _ _ _.
Arguments SubjectDID {W} _.
Arguments Data {W} _.
Arguments BMetadata {W} _.
Arguments BSigner {W} _.
Arguments BSignatureType {W} _.

Definition validation_failed : error := "validation failed".

(** The zero value of the string type [SignatureType] is the empty
    string; the declared constants are not empty. *)
Definition signatureTypePresent (t : SignatureType) : bool :=
  match t with
  | OtherSignatureType name => present name
  | _ => true
  end.

(** Modelled from the spec: the validation collaborator, an external
    library driven by the [required] tags of the struct, rejects a
    request that misses a required input (subject id, metadata, signer,
    signature type).  [Data] carries no tag. *)
Definition validate {W : Type} (b : Builder W) : option error :=
  if present (SubjectDID b)
     && match BMetadata b with Some _ => true | None => false end
     && match BSigner b with Some _ => true | None => false end
     && signatureTypePresent (BSignatureType b)
  then None else Some validation_failed.

(** The order in which a [range] loop visits a map is not fixed by the
    language: any enumeration of the entries. *)
Class MapRange := {
  range : gmap string Value → list (string * Value);
  range_perm : ∀ m, range m ≡ₚ map_to_list m
}.

(** What [Build] returns, or a run-time panic (a nil dereference). *)
Inductive BuildResult :=
  | Returned (cred : option VerifiableCredential) (err : option error)
  | Panicked.

Inductive LoopResult :=
  | LoopDone (claimProofs : gmap string Proof)
  | LoopError (err : error)
  | LoopPanic.

(** The credential signed for one claim. *)
Definition claimCredential (md : Metadata) (k : string) (v : Value)
  : VerifiableCredential :=
  {| vc_Metadata := md;
     CredentialSubject := {[ k := v ]};
     ClaimProofs := ∅;
     vc_Proof := None |}.

(** The loop that computes the claim proofs, over the entries in the
    order the [range] visits them. *)
Fixpoint signClaims {W : Type} `{!LDMethods W VerifiableCredential}
    (suite : SignatureSuite) (md : Metadata) (signer : Signer W)
    (options : ProofOptions) (entries : list (string * Value))
    (claimProofs : gmap string Proof) (w : World W) : LoopResult * World W :=
  match entries with
  | [] => (LoopDone claimProofs, w)
  | (k, v) :: rest =>
      match Sign suite (claimCredential md k v) signer options w with
      | ((_, Some err), w') => (LoopError err, w')
      | ((credential, None), w') =>
          match vc_Proof credential with
          | None => (LoopPanic, w')
          | Some p =>
              signClaims suite md signer options rest (<[ k := p ]> claimProofs) w'
          end
      end
  end.

(** [credSubjects]: the id entry, then every entry of [Data] written
    over it. *)
Definition credSubjectsOf {W : Type} `{!MapRange} (b : Builder W)
  : gmap string Value :=
  foldl (λ m kv, <[ kv.1 := kv.2 ]> m)
    {[ SubjectIDAttribute := VString (SubjectDID b) ]}
    (match Data b with Some data => range data | None => [] end).

(** [Build] from the point where the suite is resolved. *)
Definition assemble {W : Type} `{!LDMethods W VerifiableCredential, !MapRange}
    (suite : SignatureSuite) (b : Builder W) (w : World W)
  : BuildResult * World W :=
  let credSubjects := credSubjectsOf b in
  let options := {| ProofPurpose_ := AssertionMethodPurpose |} in
  match BMetadata b, BSigner b with
  | Some md, Some signer =>
      match signClaims suite md signer options (range credSubjects) ∅ w with
      | (LoopError err, w') => (Returned None (Some err), w')
      | (LoopPanic, w') => (Panicked, w')
      | (LoopDone claimProofs, w') =>
          let cred :=
            {| vc_Metadata := md;
               CredentialSubject := credSubjects;
               ClaimProofs := claimProofs;
               vc_Proof := None |} in
          let '((cred', err), w'') := Sign suite cred signer options w' in
          (Returned (Some cred') err, w'')
      end
  | _, _ => (Panicked, w)
  end.

Definition Build {W : Type} `{!LDMethods W VerifiableCredential, !MapRange}
    (b : Builder W) (w : World W) : BuildResult * World W :=
  match validate b with
  | Some err => (Returned None (Some err), w)
  | None =>
      match GetSuiteForCredentials SignatureSuites (BSignatureType b) V2 with
      | (_, Some err) => (Returned None (Some err), w)
      | (None, None) => (Panicked, w)
      | (Some suite, None) => assemble suite b w
      end
  end.

(** The [LDSignatureSuite] a suite signs with. *)
Fixpoint signingSuite (x : SignatureSuite) : LDSignatureSuite :=
  match x with
  | LDSuite s => s
  | CompSuite (mkComposite m _) => signingSuite m
  end.

(** ** Views of suites and of the registry *)

(** The [LDSignatureSuite]s a suite value holds, Main before Backup. *)
Fixpoint ldSuites (x : SignatureSuite) : list LDSignatureSuite :=
  match x with
  | LDSuite s => [s]
  | CompSuite (mkComposite m b) => ldSuites m ++ ldSuites b
  end.

(** A copy helper applied to every [LDSignatureSuite] of a suite
    value. *)
Fixpoint mapLD (f : LDSignatureSuite → LDSignatureSuite) (x : SignatureSuite)
  : SignatureSuite :=
  match x with
  | LDSuite s => LDSuite (f s)
  | CompSuite (mkComposite m b) => CompSuite (mkComposite (mapLD f m) (mapLD f b))
  end.

(** The proof factory that produces the proofs of a model version. *)
Definition factoryOf (v : ModelVersion) : option ProofFactory :=
  match v with
  | V1 => Some proofFactoryV1
  | V2 => Some proofFactoryV2
  | UnknownVersion => None
  end.

(** The six fields of a factory. *)
Definition factoryFields (f : SignatureSuiteFactory) : list (option SignatureSuite) :=
  [ JCSEd25519 f; WorkEd25519 f; WorkEd25519v2 f; Ed25519 f; Ed25519v2 f;
    Secp256k1 f ].

(** The package-level suites the credential tables return. *)
Definition credentialSuites : list SignatureSuite :=
  [ CompSuite ed25519SignatureSuiteV1B64; CompSuite workSignatureSuiteV1B64;
    CompSuite ed25519SignatureSuiteV2B64; CompSuite workSignatureSuiteV2B64;
    LDSuite jcsEd25519SignatureSuite ].

(** The pairs of the credential tables. *)
Definition supportedForCredentials (t : SignatureType) (v : ModelVersion) : bool :=
  match t, v with
  | Ed25519SignatureType, (V1 | V2) => true
  | WorkEdSignatureType, (V1 | V2) => true
  | JCSEdSignatureType, V2 => true
  | _, _ => false
  end.

(** A factory literal without fields: every suite is nil. *)
Definition zeroFactory : SignatureSuiteFactory :=
  {| JCSEd25519 := None; WorkEd25519 := None; WorkEd25519v2 := None;
     Ed25519 := None; Ed25519v2 := None; Secp256k1 := None |}.

(** ** Fixtures

    A concrete world for running the definitions: the external state
    counts the signatures the signer has produced. *)
Module Fixtures.

Definition testNow (w : nat) : string * nat := ("2020-01-01T00:00:00Z", w).
Definition testNonce (w : nat) : string * nat := ("nonce", w).

Definition showProof (p : option Proof) : string :=
  match p with
  | None => "-"
  | Some p =>
      Created p +:+ "|" +:+ Creator p +:+ "|" +:+ VerificationMethod p
      +:+ "|" +:+ Nonce p +:+ "|" +:+ SignatureValue p
  end.

Definition showValue (v : Value) : string :=
  match v with
  | VString s => s
  | VNumber _ => "#"
  | VBool true => "true"
  | VBool false => "false"
  | VNull => "null"
  end.

(** A serializer that writes the claims, the names of the proved
    claims and the proof slot. *)
Definition testMarshal (c : VerifiableCredential) : error + bytes :=
  inr (String.concat ","
         ((λ kv, kv.1 +:+ "=" +:+ showValue kv.2) <$> map_to_list (CredentialSubject c))
       +:+ ";" +:+ String.concat "," ((map_to_list (ClaimProofs c)).*1)
       +:+ ";" +:+ showProof (vc_Proof c)).

#[export] Instance testStrategies : Strategies nat VerifiableCredential :=
  {| now := testNow;
     freshNonce := testNonce;
     marshal := testMarshal;
     canonicalizeJCS := λ raw, inr ("jcs:" +:+ raw);
     base64 := λ raw, "b64:" +:+ raw |}.

#[export] Program Instance testRange : MapRange := {| range := map_to_list |}.
Next Obligation. done. Qed.

(** A signer that serves [limit] signatures and fails afterwards;
    without a limit it always serves. *)
Definition testSigner (limit : option nat) : Signer nat :=
  {| signer_KeyRef := "did:work:issuer#key-1";
     signer_sign := λ _ _ digest n,
       if match limit with Some l => bool_decide (n < l) | None => true end
       then (inr ("sig:" +:+ digest), S n)
       else (inl "signer unavailable", n) |}.

Definition testVerifier : Verifier nat :=
  {| verifier_verify := λ keyRef _ digest sig n,
       if decide (keyRef = "did:work:issuer#key-1" ∧ sig = "sig:" +:+ digest)
       then (None, n) else (Some "invalid signature", n) |}.

Definition testMetadata : Metadata :=
  {| md_Type := "credential"; md_ModelVersion := "1.0"; md_ID := "cred-1";
     md_Name := "test"; md_Author := "did:work:issuer";
     md_Authored := "2020-01-01T00:00:00Z"; md_Proof := None |}.

Definition testBuilder (data : option (gmap string Value))
    (t : SignatureType) (limit : option nat) : Builder nat :=
  {| SubjectDID := "did:example:123";
     Data := data;
     BMetadata := Some testMetadata;
     BSigner := Some (testSigner limit);
     BSignatureType := t |}.

Definition world0 : World nat := {| calls := []; ext := 0 |}.

(** A V2-shaped proof of the JCS signature type. *)
Definition jcsCredentialProof : Proof :=
  {| Created := "2020-01-01T00:00:00Z"; Creator := "";
     VerificationMethod := "did:work:issuer#key-1"; Nonce := "";
     SignatureValue := "sig"; ProofType := JCSEdSignatureType;
     Purpose := AssertionMethodPurpose |}.

(** A proof that carries both key-reference fields. *)
Definition ambiguousProof : Proof :=
  {| Created := "2020-01-01T00:00:00Z"; Creator := "did:work:issuer#key-1";
     VerificationMethod := "did:work:issuer#key-1"; Nonce := "nonce";
     SignatureValue := "sig"; ProofType := Ed25519SignatureType;
     Purpose := NoPurpose |}.

(** The builder of the selective-disclosure example. *)
Definition twoClaims : Builder nat :=
  testBuilder (Some {[ "age" := VNumber 30; "country" := VString "US" ]})
    Ed25519SignatureType None.

Definition runBuild (b : Builder nat) (w : World nat)
  : BuildResult * World nat := Build b w.

Definition credOf (r : BuildResult * World nat) : VerifiableCredential :=
  match r.1 with
  | Returned (Some c) _ => c
  | _ => claimCredential testMetadata "" VNull
  end.

End Fixtures.

(** * Properties *)

(** ** The package-level variables *)

(** The type assertions in the initializers of the package-level
    variables succeed and read back the literals. *)
Lemma workSignatureSuiteV1_Main_assert :
  assertLD (Main workSignatureSuiteV1) = Some workSignatureSuiteV1_Main.
Proof. reflexivity. Qed.

Lemma ed25519SignatureSuiteV1_Main_assert :
  assertLD (Main ed25519SignatureSuiteV1) = Some ed25519SignatureSuiteV1_Main.
Proof. reflexivity. Qed.

(** ** The suite registry *)

(** C1. On the registry, [GetSuite] returns for each of the six
    supported (signature type, model version) pairs a suite, without
    error, whose [Type()] is the requested signature type; for every
    other pair it returns no suite and the error "unsupported signature
    type". *)
Theorem GetSuite_total (t : SignatureType) (v : ModelVersion) :
  match GetSuite SignatureSuites t v with
  | (Some s, None) => supported t v = true ∧ Type_ s = t
  | (None, Some err) =>
      supported t v = false ∧ err = unsupported_signature_type
  | _ => False
  end.
Proof. destruct t, v; cbn; auto. Qed.

(** What [withAndWithoutCanonicalizer] builds from any suite. *)
Lemma withAndWithoutCanonicalizer_spec (suite : LDSignatureSuite) :
  ∃ b, withAndWithoutCanonicalizer suite = mkComposite (LDSuite suite) (LDSuite b)
       ∧ sameButCanonicalizer suite b.
Proof. eexists. split; [reflexivity|]. by repeat split. Qed.

(** C7. Every composite suite among the package-level variables
    reports its Main suite's type; Main and Backup are
    [LDSignatureSuite]s of the same signature type, and Backup has the
    configuration of Main in every strategy field but the canonicalizer,
    which Backup lacks. *)
Theorem registryComposites_main_backup :
  Forall (λ c, ∃ m b,
            Main c = LDSuite m ∧ Backup c = LDSuite b ∧
            compositeSignatureSuite_Type c = Type_ (Main c) ∧
            Type_ (Backup c) = Type_ (Main c) ∧
            sameButCanonicalizer m b)
         registryComposites.
Proof.
  unfold registryComposites.
  repeat first [ apply Forall_nil_2 | apply Forall_cons; split ].
  all: eexists _, _; split; [reflexivity|]; split; [reflexivity|].
  all: by repeat split.
Qed.

(** C6, as it stands, fails on a V2 proof of the JCS signature type:
    the suite returned for it carries no base64 digest. *)
Lemma GetSuiteForCredentialProof_jcs_no_b64 :
  GetSuiteForCredentialProof SignatureSuites Fixtures.jcsCredentialProof
    = (Some (LDSuite jcsEd25519SignatureSuite), None)
  ∧ usesB64Digest (LDSuite jcsEd25519SignatureSuite) = false.
Proof. split; reflexivity. Qed.

(** C6, amended.  For every proof [GetSuiteForCredentialProof] accepts:
    if its type is Ed25519 or WorkEd25519, the suite returned is a
    composite whose Main and Backup both carry the base64 digest; if its
    type is JCSEd25519, the suite returned is the general JCS suite,
    which has no message digest. *)
Theorem GetSuiteForCredentialProof_digest (f : SignatureSuiteFactory)
    (p : Proof) (s : SignatureSuite) :
  GetSuiteForCredentialProof f p = (Some s, None) →
  if decide (ProofType p = JCSEdSignatureType)
  then s = LDSuite jcsEd25519SignatureSuite ∧ usesB64Digest s = false
  else usesB64Digest s = true ∧
       ∃ m b, s = CompSuite (mkComposite (LDSuite m) (LDSuite b)) ∧
              MessageDigest_ m = Some Base64Encoder ∧
              MessageDigest_ b = Some Base64Encoder.
Proof.
  unfold GetSuiteForCredentialProof.
  destruct (Proof_ModelVersion p), (ProofType p); cbn; intros [= <-];
    case_decide; try done; (split; [done|]); eexists _, _; by repeat split.
Qed.

Lemma GetSuiteForCredentialProof_digest_witness :
  let p := {| Created := "2020-01-01T00:00:00Z";
              Creator := "did:work:issuer#key-1"; VerificationMethod := "";
              Nonce := "nonce"; SignatureValue := "sig";
              ProofType := Ed25519SignatureType; Purpose := NoPurpose |} in
  GetSuiteForCredentialProof SignatureSuites p
    = (Some (CompSuite ed25519SignatureSuiteV1B64), None)
  ∧ usesB64Digest (CompSuite ed25519SignatureSuiteV1B64) = true.
Proof.
  intros p. split; [reflexivity|].
  apply (GetSuiteForCredentialProof_digest SignatureSuites p
           (CompSuite ed25519SignatureSuiteV1B64) eq_refl).
Defined.

(** C8. A proof that carries both [creator] and [verificationMethod],
    or neither, is given no model version, and so both
    [GetSuiteForProof] and [GetSuiteForCredentialProof] reject it with
    an error and no suite, whatever the registry holds. *)
Theorem ModelVersion_rejects_ambiguous (f : SignatureSuiteFactory) (p : Proof) :
  present (Creator p) = present (VerificationMethod p) →
  Proof_ModelVersion p = UnknownVersion ∧
  GetSuiteForProof f p = (None, Some unsupported_signature_type) ∧
  GetSuiteForCredentialProof f p = (None, Some unsupported_signature_type).
Proof.
  intros Hp.
  assert (Proof_ModelVersion p = UnknownVersion) as Hv.
  { unfold Proof_ModelVersion. rewrite Hp.
    by destruct (present (VerificationMethod p)). }
  unfold GetSuiteForProof, GetSuiteForCredentialProof, GetSuite.
  by rewrite Hv.
Qed.

Lemma ModelVersion_rejects_ambiguous_witness :
  Proof_ModelVersion Fixtures.ambiguousProof = UnknownVersion ∧
  GetSuiteForProof SignatureSuites Fixtures.ambiguousProof
    = (None, Some unsupported_signature_type) ∧
  GetSuiteForCredentialProof SignatureSuites Fixtures.ambiguousProof
    = (None, Some unsupported_signature_type).
Proof.
  apply (ModelVersion_rejects_ambiguous SignatureSuites Fixtures.ambiguousProof).
  reflexivity.
Defined.

(** ** The composite suite *)

Scheme SignatureSuite_mut_ind := Induction for SignatureSuite Sort Prop
  with compositeSignatureSuite_mut_ind :=
    Induction for compositeSignatureSuite Sort Prop.

(** Induction on suites through the two fields of a composite. *)
Lemma SignatureSuite_nested_ind (P : SignatureSuite → Prop) :
  (∀ s, P (LDSuite s)) →
  (∀ m b, P m → P b → P (CompSuite (mkComposite m b))) →
  ∀ x, P x.
Proof.
  intros Hld Hcomp.
  apply (SignatureSuite_mut_ind P (λ c, P (CompSuite c))); auto.
Qed.

Section Composite.
Context {W D : Type} `{!Provable D, !LDMethods W D}.

Lemma Sign_composite (c : compositeSignatureSuite) (d : D) signer options
    (w : World W) :
  Sign (CompSuite c) d signer options w = Sign (Main c) d signer options w.
Proof. by destruct c. Qed.

(** Every [Sign] is one call, on the suite reached through the Main
    fields, and it writes nothing but the proof slot. *)
Lemma Sign_inv (x : SignatureSuite) (d d' : D) signer options
    (w w' : World W) err :
  Sign x d signer options w = ((d', err), w') →
  ∃ slot e',
    LDSignatureSuite_Sign (signingSuite x) d signer options (ext w)
      = ((slot, err), e') ∧
    d' = SetProof slot d ∧
    w' = {| calls := calls w ++ [CallSign (signingSuite x)]; ext := e' |}.
Proof.
  revert d' w' err. induction x as [s|m b IHm _] using SignatureSuite_nested_ind;
    intros d' w' err; cbn.
  - unfold invoke.
    destruct (LDSignatureSuite_Sign s d signer options (ext w))
      as [[slot err'] e'].
    intros [= <- <- <-]. by exists slot, e'.
  - apply IHm.
Qed.

(** C2. The composite's [Verify] runs Main first.  When Main returns
    nil, the composite returns nil in the world Main left, so Backup
    is not invoked; when Main returns an error, the composite is
    Backup's [Verify] run after it, so that the error of a double
    failure is Backup's and Main's is dropped.  For a Main and a
    Backup that are [LDSignatureSuite]s the call log grows by the one
    call on Main in the first case and by the calls on Main and on
    Backup, in this order, in the second. *)
Theorem compositeSignatureSuite_Verify_fallback
    (c : compositeSignatureSuite) (m b : LDSignatureSuite) (d : D)
    (v : Verifier W) (w : World W) :
  match Verify (Main c) d v w with
  | (None, w') => Verify (CompSuite c) d v w = (None, w')
  | (Some mainErr, w') =>
      Verify (CompSuite c) d v w = Verify (Backup c) d v w'
  end
  ∧
  match LDSignatureSuite_Verify m d v (ext w) with
  | (None, e') =>
      Verify (CompSuite (mkComposite (LDSuite m) (LDSuite b))) d v w
      = (None, {| calls := calls w ++ [CallVerify m]; ext := e' |})
  | (Some mainErr, e') =>
      let '(backupErr, e'') := LDSignatureSuite_Verify b d v e' in
      Verify (CompSuite (mkComposite (LDSuite m) (LDSuite b))) d v w
      = (backupErr,
         {| calls := calls w ++ [CallVerify m; CallVerify b]; ext := e'' |})
  end.
Proof.
  split.
  - destruct c as [main backup]; cbn.
    by destruct (Verify main d v w) as [[mainErr|] w'].
  - cbn. unfold invoke.
    destruct (LDSignatureSuite_Verify m d v (ext w)) as [[mainErr|] e']; cbn;
      [|done].
    destruct (LDSignatureSuite_Verify b d v e') as [backupErr e''].
    by rewrite <- (assoc_L (++)).
Qed.

End Composite.

(** ** Round trip *)

Section RoundTrip.
Context {W D : Type} `{!Provable D} `{S : !Strategies W D}.

Lemma withSignatureValue_skeleton s created keyRef options sig :
  withSignatureValue "" (withSignatureValue sig
    (proofSkeleton s created keyRef options))
  = proofSkeleton s created keyRef options.
Proof. reflexivity. Qed.

Lemma keyReference_skeleton s created keyRef options :
  keyReference (proofSkeleton s created keyRef options) = keyRef.
Proof.
  unfold keyReference, proofSkeleton; cbn.
  destruct (ProofFactory_ s); cbn; [done|].
  by destruct keyRef.
Qed.

(** The round trip of one [LDSignatureSuite]. *)
Lemma specSign_specVerify (s : LDSignatureSuite) (d : D) signer verifier
    options w slot w' w0 :
  matching signer verifier →
  specSign S s d signer options w = ((slot, None), w') →
  (specVerify S s (SetProof slot d) verifier w0).1 = None.
Proof.
  intros Hmatch. unfold specSign, specVerify.
  destruct (now S w) as [created w1].
  set (skeleton0 := proofSkeleton s created (signer_KeyRef signer) options).
  assert (∃ skeleton w2,
    match OptionsAppender_ s with
    | Some NonceAppender =>
        let '(n, w') := freshNonce S w1 in (withNonce n skeleton0, w')
    | None => (skeleton0, w1)
    end = (skeleton, w2)
    ∧ withSignatureValue "" skeleton = skeleton
    ∧ keyReference skeleton = signer_KeyRef signer) as (skeleton & w2 & -> & Hsk & Hkey).
  { destruct (OptionsAppender_ s) as [[]|].
    - destruct (freshNonce S w1) as [n w2]. exists (withNonce n skeleton0), w2.
      repeat split. apply keyReference_skeleton.
    - exists skeleton0, w1. repeat split. apply keyReference_skeleton. }
  destruct (signingInput S s (SetProof (Some skeleton) d)) as [e|digest] eqn:Hin;
    [discriminate|].
  destruct (signer_sign signer _ _ digest w2) as [[e|sig] w3] eqn:Hsig;
    [discriminate|].
  intros [= <- <-].
  rewrite GetProof_SetProof, SetProof_SetProof.
  replace (withSignatureValue "" (withSignatureValue sig skeleton))
    with skeleton by (by rewrite <- Hsk at 1).
  rewrite Hin. cbn.
  replace (keyReference (withSignatureValue sig skeleton))
    with (signer_KeyRef signer) by (by rewrite <- Hkey).
  eapply Hmatch, Hsig.
Qed.

(** C5. With the suite algorithm of the specification: whenever
    [Sign] of a suite returns no error, [Verify] of the same suite on
    the signed document, with a verifier that matches the signer,
    returns no error.  This holds for every suite value, and so for
    each suite the registry hands out. *)
Theorem Sign_Verify_roundtrip (x : SignatureSuite) (d d' : D) signer verifier
    options (w w' w0 : World W) :
  matching signer verifier →
  Sign x d signer options w = ((d', None), w') →
  (Verify x d' verifier w0).1 = None.
Proof.
  intros Hmatch. revert w0.
  induction x as [s|m b IHm _] using SignatureSuite_nested_ind;
    intros w0 Hsign.
  - apply Sign_inv in Hsign as (slot & e' & Hsign & -> & _).
    cbn in *. unfold invoke.
    pose proof (specSign_specVerify s d signer verifier options _ _ _
                  (ext w0) Hmatch Hsign) as Hv.
    by destruct (specVerify S s (SetProof slot d) verifier (ext w0)).
  - cbn in Hsign. specialize (IHm w0 Hsign). cbn.
    by destruct (Verify m d' verifier w0) as [[e|] w1].
Qed.

End RoundTrip.

(** ** The credential builder *)

Section Builder.
Context {W : Type} `{!LDMethods W VerifiableCredential, !MapRange}.

Local Abbreviation options := {| ProofPurpose_ := AssertionMethodPurpose |}.

Lemma foldl_insert_union (l : list (string * Value)) (init : gmap string Value) :
  NoDup l.*1 →
  foldl (λ m kv, <[ kv.1 := kv.2 ]> m) init l = list_to_map l ∪ init.
Proof.
  revert init. induction l as [|[k v] l IH]; intros init Hnd; cbn.
  - by rewrite (left_id_L ∅ (∪)).
  - apply NoDup_cons in Hnd as [Hk Hnd]. rewrite IH by done.
    rewrite <- insert_union_l.
    rewrite insert_union_r; [done|]. by apply not_elem_of_list_to_map_1.
Qed.

Lemma range_NoDup (m : gmap string Value) : NoDup (range m).*1.
Proof. rewrite range_perm. apply NoDup_fst_map_to_list. Qed.

Lemma elem_of_range (m : gmap string Value) k v :
  (k, v) ∈ range m ↔ m !! k = Some v.
Proof. rewrite range_perm. apply elem_of_map_to_list. Qed.

Lemma elem_of_range_keys (m : gmap string Value) k :
  k ∈ (range m).*1 ↔ k ∈ dom m.
Proof.
  rewrite list_elem_of_fmap, elem_of_dom. split.
  - intros ([k' v] & -> & Hin). apply elem_of_range in Hin. by exists v.
  - intros [v Hv]. exists (k, v). split; [done|]. by apply elem_of_range.
Qed.

Lemma list_to_map_range (m : gmap string Value) : list_to_map (range m) = m.
Proof.
  rewrite (list_to_map_proper _ (map_to_list m));
    [apply list_to_map_to_list|apply range_NoDup|apply range_perm].
Qed.

(** The claims of the credential: the entries of [Data], and the id
    entry unless [Data] has one of its own. *)
Lemma credSubjectsOf_union (b : Builder W) :
  credSubjectsOf b
  = default ∅ (Data b) ∪ {[ SubjectIDAttribute := VString (SubjectDID b) ]}.
Proof.
  unfold credSubjectsOf. destruct (Data b) as [data|]; cbn.
  - rewrite foldl_insert_union by apply range_NoDup.
    by rewrite list_to_map_range.
  - by rewrite (left_id_L ∅ (∪)).
Qed.

(** Whatever the loop returns, it has made only [Sign] calls on the
    signing suite. *)
Lemma signClaims_calls suite md signer entries acc (w w' : World W) r :
  signClaims suite md signer options entries acc w = (r, w') →
  ∃ n, calls w' = calls w ++ replicate n (CallSign (signingSuite suite)).
Proof.
  revert acc w. induction entries as [|[k v] rest IH]; intros acc w; cbn.
  - intros [= _ <-]. exists 0. cbn. by rewrite app_nil_r.
  - destruct (Sign suite (claimCredential md k v) signer options w)
      as [[c err] w1] eqn:Hsign.
    apply Sign_inv in Hsign as (slot & e' & _ & _ & ->).
    destruct err as [err|].
    + intros [= _ <-]. by exists 1.
    + destruct (vc_Proof c) as [p|].
      * intros Hrest. apply IH in Hrest as [n Hn]. exists (S n).
        rewrite Hn. cbn. by rewrite <- (assoc_L (++)).
      * intros [= _ <-]. by exists 1.
Qed.

(** When the loop completes, the proofs of the keys it visited come
    from signing their one-claim credentials, the other keys are
    untouched. *)
Lemma signClaims_done suite md signer entries acc (w w' : World W) cp :
  NoDup entries.*1 →
  signClaims suite md signer options entries acc w = (LoopDone cp, w') →
  (∀ k, k ∉ entries.*1 → cp !! k = acc !! k) ∧
  (∀ k v, (k, v) ∈ entries →
     ∃ p c w1 w2,
       Sign suite (claimCredential md k v) signer options w1 = ((c, None), w2) ∧
       vc_Proof c = Some p ∧ cp !! k = Some p).
Proof.
  revert acc w. induction entries as [|[k v] rest IH]; intros acc w Hnd; cbn.
  - intros [= <- _]. split; [done|]. intros k v Hin. by apply elem_of_nil in Hin.
  - apply NoDup_cons in Hnd as [Hk Hnd].
    destruct (Sign suite (claimCredential md k v) signer options w)
      as [[c [err|]] w1] eqn:Hsign; [discriminate|].
    destruct (vc_Proof c) as [p|] eqn:Hp; [|discriminate].
    intros Hrest. destruct (IH _ _ Hnd Hrest) as [Hout Hin]. split.
    + intros k' Hk'. apply not_elem_of_cons in Hk' as [Hne Hk'].
      rewrite Hout by done. by rewrite lookup_insert_ne.
    + intros k' v' Hin'. apply elem_of_cons in Hin' as [[= -> ->]|Hin'].
      * exists p, c, w, w1. repeat split; [done..|].
        rewrite Hout by done. by rewrite lookup_insert_eq.
      * by apply Hin in Hin'.
Qed.

(** C9. For a builder that passes validation, the suite [Build] signs
    with is the entry of the credential-proof registry for the
    builder's signature type and V2: [Build] continues with that
    entry, and every call it makes is a [Sign] on the entry's signing
    suite.  When the registry has no entry, [Build] returns the
    lookup's error and no credential, in the world it was called
    in. *)
Theorem Build_resolves_credential_suite (b : Builder W) (w : World W) :
  validate b = None →
  match GetSuiteForCredentials SignatureSuites (BSignatureType b) V2 with
  | (Some suite, None) =>
      getSuiteV2Cred SignatureSuites (BSignatureType b) = Some suite ∧
      Build b w = assemble suite b w ∧
      ∃ n, calls (Build b w).2
           = calls w ++ replicate n (CallSign (signingSuite suite))
  | (None, Some err) =>
      getSuiteV2Cred SignatureSuites (BSignatureType b) = None ∧
      err = unsupported_signature_type ∧
      Build b w = (Returned None (Some err), w)
  | _ => False
  end.
Proof.
  intros Hval. unfold Build. rewrite Hval.
  unfold GetSuiteForCredentials.
  destruct (getSuiteV2Cred SignatureSuites (BSignatureType b)) as [suite|];
    [|done].
  split; [done|]. split; [done|].
  unfold assemble.
  destruct (BMetadata b) as [md|]; [|by exists 0; cbn; rewrite app_nil_r].
  destruct (BSigner b) as [signer|];
    [|by exists 0; cbn; rewrite app_nil_r].
  destruct (signClaims suite md signer options (range (credSubjectsOf b)) ∅ w)
    as [[cp|err|] w1] eqn:Hloop;
    apply signClaims_calls in Hloop as [n Hn]; cbn; [|by exists n..].
  destruct (Sign suite _ signer options w1) as [[cred' err] w2] eqn:Hsign.
  apply Sign_inv in Hsign as (slot & e' & _ & _ & ->). cbn.
  exists (S n). by rewrite Hn, replicate_S_end, (assoc_L (++)).
Qed.

(** C4, amended.  A successful [Build] returns a credential that
    carries the builder's metadata; its credential subject is the
    input claims, plus an [id] claim set to the subject identifier
    when the input claims have no [id] of their own; its claim-proofs
    mapping has exactly one entry per subject key, the proof attached
    by signing the credential of the metadata and that one claim; and
    its proof is the one attached by signing the full credential of
    all claims and all claim proofs. *)
Theorem Build_success_shape (b : Builder W) (w w' : World W)
    (cred : VerifiableCredential) :
  Build b w = (Returned (Some cred) None, w') →
  ∃ suite md signer,
    GetSuiteForCredentials SignatureSuites (BSignatureType b) V2
      = (Some suite, None) ∧
    BMetadata b = Some md ∧ BSigner b = Some signer ∧
    vc_Metadata cred = md ∧
    CredentialSubject cred
      = default ∅ (Data b) ∪ {[ SubjectIDAttribute := VString (SubjectDID b) ]} ∧
    dom (ClaimProofs cred) = dom (CredentialSubject cred) ∧
    (∀ k v, CredentialSubject cred !! k = Some v →
       ∃ p c w1 w2,
         Sign suite (claimCredential md k v) signer options w1
           = ((c, None), w2) ∧
         vc_Proof c = Some p ∧ ClaimProofs cred !! k = Some p) ∧
    (∃ p w1,
       Sign suite (VerifiableCredential_SetProof None cred) signer options w1
         = ((cred, None), w') ∧
       vc_Proof cred = Some p).
Proof.
  unfold Build. destruct (validate b); [discriminate|].
  destruct (GetSuiteForCredentials SignatureSuites (BSignatureType b) V2)
    as [[suite|] [err|]]; try discriminate.
  unfold assemble.
  destruct (BMetadata b) as [md|]; [|discriminate].
  destruct (BSigner b) as [signer|]; [|discriminate].
  destruct (signClaims suite md signer options (range (credSubjectsOf b)) ∅ w)
    as [[cp|err|] w1] eqn:Hloop; try discriminate.
  destruct (Sign suite _ signer options w1) as [[cred' err] w2] eqn:Hsign.
  intros [= -> -> ->].
  apply signClaims_done in Hloop as [Hout Hin]; [|apply range_NoDup].
  pose proof Hsign as (slot & e' & Hld & -> & _)%Sign_inv.
  apply LDSignatureSuite_Sign_attaches in Hld as [p ->].
  exists suite, md, signer. cbn. repeat split; try done.
  - apply credSubjectsOf_union.
  - apply set_eq. intros k. rewrite !elem_of_dom. split.
    + intros [p' Hp']. destruct (decide (k ∈ (range (credSubjectsOf b)).*1))
        as [Hk|Hk].
      * by apply elem_of_range_keys, elem_of_dom in Hk.
      * by rewrite (Hout _ Hk) in Hp'.
    + intros [v Hv]. apply elem_of_range, Hin in Hv as (p' & _ & _ & _ & _ & _ & ->).
      by exists p'.
  - intros k v Hv. by apply elem_of_range, Hin in Hv.
  - exists p, w1. by split.
Qed.

(** C10, amended.  The claims mapping is not a required input: for a
    builder whose subject identifier, metadata and signer are present,
    whose signature type is one the credential-proof registry supports
    for V2, and whose [Data] is nil or empty, [Build] with a signer
    that succeeds returns, without error, a credential whose
    credential subject is exactly the [id] claim of the subject
    identifier, with exactly one claim proof, keyed [id], and the
    aggregate proof. *)
Theorem Build_without_data (b : Builder W) (w : World W) md signer suite :
  present (SubjectDID b) = true →
  BMetadata b = Some md →
  BSigner b = Some signer →
  getSuiteV2Cred SignatureSuites (BSignatureType b) = Some suite →
  Data b = None ∨ Data b = Some ∅ →
  (∀ d e, (LDSignatureSuite_Sign (signingSuite suite) d signer options e).1.2
          = None) →
  ∃ cred w',
    Build b w = (Returned (Some cred) None, w') ∧
    CredentialSubject cred = {[ SubjectIDAttribute := VString (SubjectDID b) ]} ∧
    dom (ClaimProofs cred) = {[ SubjectIDAttribute ]} ∧
    is_Some (vc_Proof cred).
Proof.
  intros Hdid Hmd Hsigner Hsuite Hdata Hok.
  assert (∀ d w0, ∃ p e',
    Sign suite d signer options w0
    = ((VerifiableCredential_SetProof (Some p) d, None),
       {| calls := calls w0 ++ [CallSign (signingSuite suite)]; ext := e' |}))
    as Hsign.
  { intros d w0.
    destruct (Sign suite d signer options w0) as [[d' err] w1] eqn:Hs.
    apply Sign_inv in Hs as (slot & e' & Hld & -> & ->).
    specialize (Hok d (ext w0)). rewrite Hld in Hok. cbn in Hok. subst err.
    apply LDSignatureSuite_Sign_attaches in Hld as [p ->]. by exists p, e'. }
  assert (credSubjectsOf b
          = {[ SubjectIDAttribute := VString (SubjectDID b) ]}) as Hcs.
  { rewrite credSubjectsOf_union.
    destruct Hdata as [->| ->]; cbn; by rewrite (left_id_L ∅ (∪)). }
  assert (range (credSubjectsOf b)
          = [(SubjectIDAttribute, VString (SubjectDID b))]) as Hrange.
  { apply Permutation_singleton_r. rewrite range_perm, Hcs.
    by rewrite map_to_list_singleton. }
  assert (validate b = None) as Hval.
  { unfold validate. rewrite Hdid, Hmd, Hsigner. cbn.
    by destruct (BSignatureType b). }
  unfold Build, GetSuiteForCredentials. rewrite Hval, Hsuite.
  unfold assemble. rewrite Hmd, Hsigner, Hrange. cbn.
  destruct (Hsign (claimCredential md SubjectIDAttribute
                     (VString (SubjectDID b))) w) as (p & e1 & ->). cbn.
  match goal with
  | |- context [Sign suite ?d signer _ ?w0] =>
      destruct (Hsign d w0) as (q & e2 & ->)
  end.
  eexists _, _. split; [reflexivity|]. cbn.
  split; [done|]. split; [|by exists q].
  by rewrite insert_empty, dom_singleton_L.
Qed.

End Builder.

(** ** Runs on the fixtures *)

Import Fixtures.

Lemma testSigner_succeeds (s : LDSignatureSuite) (d : VerifiableCredential)
    (options : ProofOptions) (e : nat) :
  (LDSignatureSuite_Sign s d (Fixtures.testSigner None) options e).1.2 = None.
Proof. by destruct s as [? ? ? [[]|] [] [[]|] [[]|]]. Qed.

Lemma testVerifier_matching :
  matching (Fixtures.testSigner None) Fixtures.testVerifier.
Proof.
  intros kt st digest sig w w' [= <- _] w0. cbn.
  by rewrite decide_True.
Qed.

(** C3 fails on the code.  With a signer that serves the signature of
    the one claim proof and fails on the aggregate signature, [Build]
    returns the error together with a credential that carries the claim
    proof and no aggregate proof, where the claim has no credential
    next to an error. *)
Theorem Build_aggregate_failure_returns_credential :
  let b := Fixtures.testBuilder None Ed25519SignatureType (Some 1) in
  ∃ cred w',
    Fixtures.runBuild b Fixtures.world0
      = (Returned (Some cred) (Some "signer unavailable"), w') ∧
    dom (ClaimProofs cred) = {[ SubjectIDAttribute ]} ∧
    vc_Proof cred = None.
Proof.
  eexists _, _. split; [vm_compute; reflexivity|].
  split; [|reflexivity]. by vm_compute.
Qed.

(** C4, as it stands, fails on input claims that carry an [id] of their
    own: the credential subject keeps that claim, and its [id] is not
    the subject identifier. *)
Lemma Build_id_claim_of_data_kept :
  let b := Fixtures.testBuilder
             (Some {[ SubjectIDAttribute := VString "did:example:456" ]})
             Ed25519SignatureType None in
  ∃ cred w',
    Fixtures.runBuild b Fixtures.world0 = (Returned (Some cred) None, w') ∧
    CredentialSubject cred !! SubjectIDAttribute
      = Some (VString "did:example:456") ∧
    CredentialSubject cred !! SubjectIDAttribute
      ≠ Some (VString (SubjectDID b)).
Proof.
  eexists _, _. split; [vm_compute; reflexivity|].
  split; [by vm_compute|]. by vm_compute.
Qed.

Lemma Build_success_shape_witness :
  CredentialSubject (Fixtures.credOf (Fixtures.runBuild twoClaims Fixtures.world0))
  = {[ "age" := VNumber 30; "country" := VString "US" ]}
    ∪ {[ SubjectIDAttribute := VString "did:example:123" ]}
  ∧ dom (ClaimProofs (Fixtures.credOf (Fixtures.runBuild twoClaims Fixtures.world0)))
    = dom (CredentialSubject
             (Fixtures.credOf (Fixtures.runBuild twoClaims Fixtures.world0))).
Proof.
  destruct (Build_success_shape twoClaims Fixtures.world0
              (Fixtures.runBuild twoClaims Fixtures.world0).2
              (Fixtures.credOf (Fixtures.runBuild twoClaims Fixtures.world0)))
    as (suite & md & signer & _ & _ & _ & _ & Hsubject & Hdom & _).
  - vm_compute. reflexivity.
  - split; [exact Hsubject|exact Hdom].
Defined.

Lemma Sign_Verify_roundtrip_witness :
  let d := claimCredential Fixtures.testMetadata "age" (VNumber 30) in
  let signed :=
    Sign (CompSuite ed25519SignatureSuiteV2B64) d (Fixtures.testSigner None)
      {| ProofPurpose_ := AssertionMethodPurpose |} Fixtures.world0 in
  signed.1.2 = None ∧
  (Verify (CompSuite ed25519SignatureSuiteV2B64) signed.1.1
     Fixtures.testVerifier signed.2).1 = None.
Proof.
  intros d signed. split; [reflexivity|].
  apply (Sign_Verify_roundtrip (CompSuite ed25519SignatureSuiteV2B64) d signed.1.1
           (Fixtures.testSigner None) Fixtures.testVerifier
           {| ProofPurpose_ := AssertionMethodPurpose |}
           Fixtures.world0 signed.2 signed.2 testVerifier_matching).
  reflexivity.
Defined.

Lemma Build_resolves_credential_suite_witness :
  Fixtures.runBuild twoClaims Fixtures.world0
  = assemble (CompSuite ed25519SignatureSuiteV2B64) twoClaims Fixtures.world0.
Proof.
  pose proof (Build_resolves_credential_suite twoClaims Fixtures.world0 eq_refl)
    as H.
  change (GetSuiteForCredentials SignatureSuites (BSignatureType twoClaims) V2)
    with (Some (CompSuite ed25519SignatureSuiteV2B64), @None error) in H.
  cbv iota in H. apply H.
Defined.

(** C10, as it stands, fails for a signature type that is present but
    has no entry in the credential-proof registry for V2: every required
    input is there, [Data] is nil and the signer always succeeds, yet
    [Build] returns the lookup's error. *)
Lemma Build_without_data_unsupported_type :
  let b := Fixtures.testBuilder None EcdsaSecp256k1SignatureType None in
  validate b = None ∧
  Data b = None ∧
  (∀ s d options e,
     (LDSignatureSuite_Sign s d (Fixtures.testSigner None) options e).1.2 = None) ∧
  Fixtures.runBuild b Fixtures.world0
    = (Returned None (Some unsupported_signature_type), Fixtures.world0).
Proof.
  repeat split. apply testSigner_succeeds.
Qed.

Lemma Build_without_data_witness :
  ∃ cred w',
    Fixtures.runBuild (Fixtures.testBuilder None Ed25519SignatureType None)
      Fixtures.world0 = (Returned (Some cred) None, w') ∧
    CredentialSubject cred = {[ SubjectIDAttribute := VString "did:example:123" ]} ∧
    dom (ClaimProofs cred) = {[ SubjectIDAttribute ]} ∧
    is_Some (vc_Proof cred).
Proof.
  apply (Build_without_data
           (Fixtures.testBuilder None Ed25519SignatureType None) Fixtures.world0
           Fixtures.testMetadata (Fixtures.testSigner None)
           (CompSuite ed25519SignatureSuiteV2B64)).
  - reflexivity.
  - reflexivity.
  - reflexivity.
  - reflexivity.
  - left. reflexivity.
  - intros d e. apply testSigner_succeeds.
Defined.

(** * Further properties of the code *)

(** ** The registry over any factory *)

(** X1. For every factory, signature type and model version, [GetSuite]
    returns either a suite and no error or no suite and the error
    "unsupported signature type", never both and never neither; a suite
    it returns is one of the six fields of the factory and belongs to a
    supported pair; an unsupported pair is rejected whatever the fields
    hold. *)
Theorem GetSuite_any_factory (f : SignatureSuiteFactory) (t : SignatureType)
    (v : ModelVersion) :
  match GetSuite f t v with
  | (Some s, None) => supported t v = true ∧ Some s ∈ factoryFields f
  | (None, Some err) =>
      err = unsupported_signature_type ∧
      (supported t v = false ∨ None ∈ factoryFields f)
  | _ => False
  end.
Proof.
  unfold GetSuite, factoryFields.
  destruct v, t; cbn; try (split; [done|by left]).
  all: match goal with
       | |- context [match ?o with Some _ => _ | None => _ end] =>
           destruct o eqn:Hfield
       end.
  all: split; [done|].
  all: try match goal with |- _ ∨ _ => right end.
  all: repeat first [ by apply list_elem_of_here | apply list_elem_of_further ].
Qed.

(** X2. The credential lookup never reads the factory: for every
    factory, a proof gets what it gets from the registry, and a suite
    returned is one of the five package-level credential suites, of the
    proof's signature type.  A factory without any suite still serves
    every credential proof, while [GetSuite] on it rejects every
    pair. *)
Theorem GetSuiteForCredentialProof_ignores_factory (f : SignatureSuiteFactory)
    (p : Proof) (t : SignatureType) (v : ModelVersion) :
  GetSuiteForCredentialProof f p = GetSuiteForCredentialProof SignatureSuites p ∧
  match GetSuiteForCredentialProof f p with
  | (Some s, None) => s ∈ credentialSuites ∧ Type_ s = ProofType p
  | (None, Some err) => err = unsupported_signature_type
  | _ => False
  end ∧
  GetSuiteForCredentialProof zeroFactory p
    = GetSuiteForCredentialProof SignatureSuites p ∧
  GetSuite zeroFactory t v = (None, Some unsupported_signature_type).
Proof.
  split; [reflexivity|]. split; [|split; [reflexivity|by destruct v, t]].
  unfold GetSuiteForCredentialProof, credentialSuites.
  destruct (Proof_ModelVersion p), (ProofType p); cbn; try done.
  all: split; [|reflexivity].
  all: repeat first [ by apply list_elem_of_here | apply list_elem_of_further ].
Qed.

(** ** The suites of the registry *)

(** The suite a registry entry signs with carries the entry's key. *)
Lemma registry_suite_key (t : SignatureType) (v : ModelVersion)
    (s : SignatureSuite) :
  GetSuite SignatureSuites t v = (Some s, None) →
  SignatureType_ (signingSuite s) = t ∧
  Some (ProofFactory_ (signingSuite s)) = factoryOf v.
Proof. by destruct v, t; cbn; intros [= <-]. Qed.

(** X3. A suite the registry returns for a pair is configured for that
    pair: every [LDSignatureSuite] in it, Main and Backup alike, has the
    requested signature type and the proof factory of the requested
    model version, and the suite it signs with canonicalizes. *)
Theorem GetSuite_configured_for_pair (t : SignatureType) (v : ModelVersion)
    (s : SignatureSuite) :
  GetSuite SignatureSuites t v = (Some s, None) →
  Forall (λ l, SignatureType_ l = t ∧ Some (ProofFactory_ l) = factoryOf v)
         (ldSuites s) ∧
  Canonicalizer_ (signingSuite s) = Some JCSCanonicalizer.
Proof.
  destruct v, t; cbn; intros [= <-]; (split; [|reflexivity]);
    repeat constructor.
Qed.

Lemma GetSuite_configured_for_pair_witness :
  Forall (λ l, SignatureType_ l = WorkEdSignatureType ∧
               Some (ProofFactory_ l) = factoryOf V2)
         (ldSuites (CompSuite workSignatureSuiteV2)) ∧
  Canonicalizer_ (signingSuite (CompSuite workSignatureSuiteV2))
    = Some JCSCanonicalizer.
Proof.
  apply (GetSuite_configured_for_pair WorkEdSignatureType V2). reflexivity.
Defined.

(** X4. The credential tables return a suite exactly for the types they
    list (Ed25519 and WorkEd25519 for V1; these and JCSEd25519 for V2),
    for every factory; each [LDSignatureSuite] of a suite returned has
    the requested signature type and the proof factory of the table's
    model version, and the suite it signs with canonicalizes. *)
Theorem credential_tables_configured (f : SignatureSuiteFactory)
    (t : SignatureType) :
  match getSuiteV1Cred f t with
  | Some s =>
      supportedForCredentials t V1 = true ∧
      Forall (λ l, SignatureType_ l = t ∧ ProofFactory_ l = proofFactoryV1)
             (ldSuites s) ∧
      Canonicalizer_ (signingSuite s) = Some JCSCanonicalizer
  | None => supportedForCredentials t V1 = false
  end ∧
  match getSuiteV2Cred f t with
  | Some s =>
      supportedForCredentials t V2 = true ∧
      Forall (λ l, SignatureType_ l = t ∧ ProofFactory_ l = proofFactoryV2)
             (ldSuites s) ∧
      Canonicalizer_ (signingSuite s) = Some JCSCanonicalizer
  | None => supportedForCredentials t V2 = false
  end.
Proof. destruct t; cbn; repeat split; repeat constructor. Qed.

(** X5. On the registry a suite determines its pair: two lookups that
    return the same suite asked for the same signature type and the
    same model version. *)
Theorem GetSuite_injective (t1 t2 : SignatureType) (v1 v2 : ModelVersion)
    (s : SignatureSuite) :
  GetSuite SignatureSuites t1 v1 = (Some s, None) →
  GetSuite SignatureSuites t2 v2 = (Some s, None) →
  t1 = t2 ∧ v1 = v2.
Proof.
  intros [Ht1 Hv1]%registry_suite_key [Ht2 Hv2]%registry_suite_key.
  split; [congruence|]. rewrite Hv1 in Hv2. by destruct v1, v2.
Qed.

Lemma GetSuite_injective_witness :
  Ed25519SignatureType = Ed25519SignatureType ∧ V1 = V1.
Proof.
  apply (GetSuite_injective Ed25519SignatureType Ed25519SignatureType V1 V1
           (CompSuite ed25519SignatureSuiteV1)); reflexivity.
Defined.

(** X6. The credential tables are the general tables of the registry
    with the base64 digest set on every [LDSignatureSuite] and nothing
    else changed, for every type but two: the V1 credential table has
    no EcdsaSecp256k1 suite, and the V2 credential table returns the
    JCS suite of the general table as it is. *)
Theorem credential_tables_from_general (f : SignatureSuiteFactory)
    (t : SignatureType) :
  getSuiteV1Cred f t
    = (if decide (t = EcdsaSecp256k1SignatureType) then None
       else mapLD withB64Digest <$> getSuiteV1 SignatureSuites t) ∧
  getSuiteV2Cred f t
    = (if decide (t = JCSEdSignatureType) then getSuiteV2 SignatureSuites t
       else mapLD withB64Digest <$> getSuiteV2 SignatureSuites t).
Proof. by destruct t. Qed.

(** X7. The copy helpers compose: [withV2Proofs] and [withB64Digest]
    commute and are idempotent, each leaves the signature type and the
    canonicalizer of the suite alone, and building the composite after
    a copy helper is applying the helper to Main and Backup of the
    composite; the Backup of a composite never has a canonicalizer,
    whatever helper was applied before. *)
Theorem copy_helpers_compose (s : LDSignatureSuite) :
  withV2Proofs (withB64Digest s) = withB64Digest (withV2Proofs s) ∧
  withV2Proofs (withV2Proofs s) = withV2Proofs s ∧
  withB64Digest (withB64Digest s) = withB64Digest s ∧
  Forall (λ h : LDSignatureSuite → LDSignatureSuite,
            SignatureType_ (h s) = SignatureType_ s ∧
            Canonicalizer_ (h s) = Canonicalizer_ s ∧
            CompSuite (withAndWithoutCanonicalizer (h s))
              = mapLD h (CompSuite (withAndWithoutCanonicalizer s)) ∧
            ∃ b, Backup (withAndWithoutCanonicalizer (h s)) = LDSuite b ∧
                 Canonicalizer_ b = None)
         [withV2Proofs; withB64Digest].
Proof.
  repeat split; try done.
  repeat constructor; by eexists.
Qed.

(** X8. Every proof the credential lookup accepts is accepted by the
    general lookup on the registry as well, with a suite of the same
    type, the type of the proof. *)
Theorem credential_accepted_is_accepted (f : SignatureSuiteFactory) (p : Proof)
    (s : SignatureSuite) :
  GetSuiteForCredentialProof f p = (Some s, None) →
  Type_ s = ProofType p ∧
  ∃ s', GetSuiteForProof SignatureSuites p = (Some s', None) ∧
        Type_ s' = Type_ s.
Proof.
  unfold GetSuiteForCredentialProof, GetSuiteForProof, GetSuite.
  destruct (Proof_ModelVersion p), (ProofType p); cbn; intros [= <-];
    (split; [done|]); by eexists.
Qed.

Lemma credential_accepted_is_accepted_witness :
  Type_ (LDSuite jcsEd25519SignatureSuite) = ProofType jcsCredentialProof ∧
  ∃ s', GetSuiteForProof SignatureSuites jcsCredentialProof = (Some s', None) ∧
        Type_ s' = Type_ (LDSuite jcsEd25519SignatureSuite).
Proof.
  apply (credential_accepted_is_accepted SignatureSuites jcsCredentialProof).
  reflexivity.
Defined.

(** ** Calls of the suite interface *)

Lemma signingSuite_head (x : SignatureSuite) :
  head (ldSuites x) = Some (signingSuite x).
Proof.
  induction x as [?|m b IHm _] using SignatureSuite_nested_ind; [done|].
  cbn. destruct (ldSuites m); [done|]. by cbn in *.
Qed.

Lemma signingSuite_elem_of (x : SignatureSuite) : signingSuite x ∈ ldSuites x.
Proof.
  pose proof (signingSuite_head x) as H.
  destruct (ldSuites x) as [|l ls]; [done|]. cbn in H. injection H as ->.
  apply list_elem_of_here.
Qed.

Section Calls.
Context {W D : Type} `{!Provable D, !LDMethods W D}.

(** X9. [Sign] of any suite value, however its composites nest, is one
    call: a [Sign] on the [LDSignatureSuite] reached through the Main
    fields, the first of the suites the value holds.  The document comes
    back changed in its proof slot at most, and the Backup of a
    composite plays no part: replacing it changes neither result nor
    world. *)
Theorem Sign_one_call (x m b b' : SignatureSuite) (d : D) (signer : Signer W)
    (options : ProofOptions) (w : World W) :
  calls (Sign x d signer options w).2 = calls w ++ [CallSign (signingSuite x)] ∧
  head (ldSuites x) = Some (signingSuite x) ∧
  (∃ slot, (Sign x d signer options w).1.1 = SetProof slot d) ∧
  Sign (CompSuite (mkComposite m b)) d signer options w
    = Sign (CompSuite (mkComposite m b')) d signer options w.
Proof.
  destruct (Sign x d signer options w) as [[d' err] w'] eqn:Hsign.
  apply Sign_inv in Hsign as (slot & e' & _ & -> & ->). cbn.
  repeat split; [apply signingSuite_head|by exists slot].
Qed.

(** X10. [Verify] of any suite value calls [Verify] on its
    [LDSignatureSuite]s only and never [Sign]: the first call is on the
    suite the value signs with, every further call is on a suite the
    value holds, and there are at most as many calls as it holds
    suites. *)
Theorem Verify_calls (x : SignatureSuite) (d : D) (v : Verifier W) (w : World W) :
  ∃ l, calls (Verify x d v w).2 = calls w ++ CallVerify (signingSuite x) :: l ∧
       Forall (λ c, ∃ s, c = CallVerify s ∧ s ∈ ldSuites x) l ∧
       length l < length (ldSuites x).
Proof.
  revert w. induction x as [s|m b IHm IHb] using SignatureSuite_nested_ind;
    intros w; cbn.
  - exists []. unfold invoke.
    destruct (LDSignatureSuite_Verify s d v (ext w)) as [r e']. cbn.
    split; [done|]. split; [constructor|lia].
  - destruct (IHm w) as (lm & Hcm & Hlm & Hnm).
    assert (Forall (λ c, ∃ s, c = CallVerify s ∧ s ∈ ldSuites m ++ ldSuites b) lm)
      as Hlm'.
    { eapply Forall_impl; [exact Hlm|]. intros c (s & -> & Hs).
      exists s. split; [done|]. apply elem_of_app. by left. }
    destruct (Verify m d v w) as [[mainErr|] w1] eqn:Hm; cbn in Hcm.
    + destruct (IHb w1) as (lb & Hcb & Hlb & Hnb).
      exists (lm ++ CallVerify (signingSuite b) :: lb).
      split; [|split].
      * rewrite Hcb, Hcm. by rewrite <- (assoc_L (++)).
      * apply Forall_app. split; [done|]. apply Forall_cons. split.
        -- exists (signingSuite b). split; [done|]. apply elem_of_app. right.
           apply signingSuite_elem_of.
        -- eapply Forall_impl; [exact Hlb|]. intros c (s & -> & Hs).
           exists s. split; [done|]. apply elem_of_app. by right.
      * rewrite !length_app. cbn. lia.
    + exists lm. cbn. split; [done|]. split; [done|].
      rewrite length_app. lia.
Qed.


End Calls.

(** ** How [Build] ends *)

Section BuildOutcomes.
Context {W : Type} `{!LDMethods W VerifiableCredential, !MapRange}.

Local Abbreviation options := {| ProofPurpose_ := AssertionMethodPurpose |}.

Lemma validate_None (b : Builder W) :
  validate b = None →
  present (SubjectDID b) = true ∧
  (∃ md, BMetadata b = Some md) ∧ (∃ signer, BSigner b = Some signer) ∧
  signatureTypePresent (BSignatureType b) = true.
Proof.
  unfold validate.
  destruct (present (SubjectDID b)), (BMetadata b), (BSigner b),
    (signatureTypePresent (BSignatureType b)); try done.
  intros _. repeat split; eauto.
Qed.

Lemma length_range (m : gmap string Value) : length (range m) = size m.
Proof. by rewrite range_perm, length_map_to_list. Qed.

(** The claim-proof loop never panics; when it completes it has signed
    once per entry; when it stops on an error it has signed at most
    once per entry, and the error is the one of the last call. *)
Lemma signClaims_outcome suite md signer entries acc (w w' : World W) r :
  signClaims suite md signer options entries acc w = (r, w') →
  ∃ n, calls w' = calls w ++ replicate n (CallSign (signingSuite suite)) ∧
       match r with
       | LoopDone _ => n = length entries
       | LoopError err =>
           0 < n ≤ length entries ∧
           ∃ k v c w1, (k, v) ∈ entries ∧
             Sign suite (claimCredential md k v) signer options w1
               = ((c, Some err), w')
       | LoopPanic => False
       end.
Proof.
  revert acc w. induction entries as [|[k v] rest IH]; intros acc w; cbn.
  - intros [= <- <-]. exists 0. cbn. by rewrite app_nil_r.
  - destruct (Sign suite (claimCredential md k v) signer options w)
      as [[c err] w1] eqn:Hsign.
    pose proof Hsign as (slot & e' & Hld & -> & Hw1)%Sign_inv.
    destruct err as [err|].
    + intros [= <- <-]. exists 1. rewrite Hw1. cbn. split; [done|].
      split; [lia|]. eexists k, v, _, w. split; [apply list_elem_of_here|].
      by rewrite Hsign, Hw1.
    + apply LDSignatureSuite_Sign_attaches in Hld as [p ->]. cbn.
      intros Hrest. apply IH in Hrest as (n & Hn & Hr).
      exists (S n). split.
      { rewrite Hn, Hw1. cbn. by rewrite <- (assoc_L (++)). }
      destruct r as [cp|err|]; [lia| |done].
      destruct Hr as [Hb (k' & v' & c' & w2 & Hin & Hs)]. split; [lia|].
      exists k', v', c', w2. split; [by apply list_elem_of_further|done].
Qed.

(** X11. [Build] always returns: it dereferences no nil pointer, given
    that a [Sign] without error has attached a proof.  And it never
    returns a nil credential without an error. *)
Theorem Build_returns (b : Builder W) (w : World W) :
  match (Build b w).1 with
  | Panicked => False
  | Returned None None => False
  | Returned _ _ => True
  end.
Proof.
  unfold Build. destruct (validate b) as [err|] eqn:Hval; [done|].
  apply validate_None in Hval as (_ & [md Hmd] & [signer Hsigner] & _).
  unfold GetSuiteForCredentials.
  destruct (getSuiteV2Cred SignatureSuites (BSignatureType b)) as [suite|];
    [|done].
  unfold assemble. rewrite Hmd, Hsigner.
  destruct (signClaims suite md signer options (range (credSubjectsOf b)) ∅ w)
    as [r w1] eqn:Hloop.
  apply signClaims_outcome in Hloop as (n & _ & Hr).
  destruct r as [cp|err|]; [|done..].
  by destruct (Sign suite _ signer options w1) as [[cred' err] w2].
Qed.

(** X12. A [Build] that passes validation and finds its suite signs
    with that suite only, and counts: when it returns a credential it
    has signed exactly once per claim of the credential subject (the
    input claims and the [id]) and once more for the aggregate proof;
    when it returns no credential it has stopped at the first failing
    claim, after at least one and at most one call per claim. *)
Theorem Build_sign_count (b : Builder W) (w : World W) (suite : SignatureSuite) :
  validate b = None →
  getSuiteV2Cred SignatureSuites (BSignatureType b) = Some suite →
  ∃ n, calls (Build b w).2
       = calls w ++ replicate n (CallSign (signingSuite suite)) ∧
       let claims :=
         size (default ∅ (Data b)
               ∪ {[ SubjectIDAttribute := VString (SubjectDID b) ]}) in
       match (Build b w).1 with
       | Returned (Some _) _ => n = S claims
       | Returned None _ => 0 < n ≤ claims
       | Panicked => False
       end.
Proof.
  intros Hval Hsuite. unfold Build, GetSuiteForCredentials.
  rewrite Hval, Hsuite.
  apply validate_None in Hval as (_ & [md Hmd] & [signer Hsigner] & _).
  unfold assemble. rewrite Hmd, Hsigner.
  destruct (signClaims suite md signer options (range (credSubjectsOf b)) ∅ w)
    as [r w1] eqn:Hloop.
  apply signClaims_outcome in Hloop as (n & Hn & Hr).
  rewrite length_range, credSubjectsOf_union in Hr.
  destruct r as [cp|err|]; [|by exists n; destruct Hr|done].
  destruct (Sign suite _ signer options w1) as [[cred' err] w2] eqn:Hsign.
  apply Sign_inv in Hsign as (slot & e' & _ & _ & ->). cbn.
  exists (S n). split; [|by rewrite Hr].
  by rewrite Hn, replicate_S_end, (assoc_L (++)).
Qed.

(** X13. A [Build] that misses a required input (empty subject
    identifier, nil metadata, nil signer) or whose signature type is
    none of the three the V2 credential table lists returns an error
    and no credential in the world it was called in: nothing was
    signed. *)
Theorem Build_rejects_without_signing (b : Builder W) (w : World W) :
  SubjectDID b = "" ∨ BMetadata b = None ∨ BSigner b = None ∨
  BSignatureType b
    ∉ [JCSEdSignatureType; WorkEdSignatureType; Ed25519SignatureType] →
  ∃ err, Build b w = (Returned None (Some err), w).
Proof.
  intros Hmiss. unfold Build.
  destruct (validate b) as [err|] eqn:Hval; [by exists err|].
  apply validate_None in Hval as (Hdid & [md Hmd] & [signer Hsigner] & _).
  destruct Hmiss as [Hm|[Hm|[Hm|Hm]]].
  - by rewrite Hm in Hdid.
  - by rewrite Hm in Hmd.
  - by rewrite Hm in Hsigner.
  - unfold GetSuiteForCredentials.
    destruct (BSignatureType b); cbn; try by eexists.
    all: exfalso; apply Hm;
      repeat first [ by apply list_elem_of_here | apply list_elem_of_further ].
Qed.

(** X14. Fail fast: when a [Build] that passed validation and found its
    suite returns no credential, its error is the error of signing the
    one-claim credential of some claim of the credential subject, and
    the world is the one that call left: nothing was signed after the
    failure. *)
Theorem Build_claim_failure (b : Builder W) (w w' : World W)
    (suite : SignatureSuite) md signer (err : option error) :
  validate b = None →
  getSuiteV2Cred SignatureSuites (BSignatureType b) = Some suite →
  BMetadata b = Some md →
  BSigner b = Some signer →
  Build b w = (Returned None err, w') →
  ∃ k v c w1 e,
    err = Some e ∧
    (default ∅ (Data b) ∪ {[ SubjectIDAttribute := VString (SubjectDID b) ]})
      !! k = Some v ∧
    Sign suite (claimCredential md k v) signer options w1 = ((c, Some e), w').
Proof.
  intros Hval Hsuite Hmd Hsigner. unfold Build, GetSuiteForCredentials.
  rewrite Hval, Hsuite. unfold assemble. rewrite Hmd, Hsigner.
  destruct (signClaims suite md signer options (range (credSubjectsOf b)) ∅ w)
    as [r w1] eqn:Hloop.
  apply signClaims_outcome in Hloop as (n & _ & Hr).
  destruct r as [cp|e|]; [|intros [= <- <-]|done].
  { by destruct (Sign suite _ signer options w1) as [[cred' err'] w2]. }
  destruct Hr as (_ & k & v & c & w2 & Hin & Hsign).
  apply elem_of_range in Hin. rewrite credSubjectsOf_union in Hin.
  by exists k, v, c, w2, e.
Qed.

(** X15. Whenever [Build] returns a credential, with or without an
    error, the credential carries the builder's metadata, its
    credential subject is the input claims with the [id] claim (the
    subject identifier unless the input claims have an [id]), and it
    has a claim proof for every key of the credential subject and for
    no other key. *)
Theorem Build_returned_credential (b : Builder W) (w w' : World W)
    (cred : VerifiableCredential) (err : option error) :
  Build b w = (Returned (Some cred) err, w') →
  BMetadata b = Some (vc_Metadata cred) ∧
  CredentialSubject cred
    = default ∅ (Data b) ∪ {[ SubjectIDAttribute := VString (SubjectDID b) ]} ∧
  SubjectIDAttribute ∈ dom (CredentialSubject cred) ∧
  dom (ClaimProofs cred) = dom (CredentialSubject cred).
Proof.
  unfold Build. destruct (validate b); [discriminate|].
  destruct (GetSuiteForCredentials SignatureSuites (BSignatureType b) V2)
    as [[suite|] [e|]]; try discriminate.
  unfold assemble.
  destruct (BMetadata b) as [md|]; [|discriminate].
  destruct (BSigner b) as [signer|]; [|discriminate].
  destruct (signClaims suite md signer options (range (credSubjectsOf b)) ∅ w)
    as [[cp|e|] w1] eqn:Hloop; try discriminate.
  destruct (Sign suite _ signer options w1) as [[cred' err'] w2] eqn:Hsign.
  intros [= -> -> ->].
  apply signClaims_done in Hloop as [Hout Hin]; [|apply range_NoDup].
  apply Sign_inv in Hsign as (slot & e' & _ & -> & _). cbn.
  rewrite credSubjectsOf_union. split; [done|]. split; [done|]. split.
  - rewrite dom_union_L, dom_singleton_L. set_solver.
  - rewrite <- credSubjectsOf_union.
    apply set_eq. intros k. rewrite !elem_of_dom. split.
    + intros [p' Hp']. destruct (decide (k ∈ (range (credSubjectsOf b)).*1))
        as [Hk|Hk].
      * by apply elem_of_range_keys, elem_of_dom in Hk.
      * by rewrite (Hout _ Hk) in Hp'.
    + intros [v Hv].
      apply elem_of_range, Hin in Hv as (p' & _ & _ & _ & _ & _ & ->).
      by exists p'.
Qed.

(** X16. The credential subject does not depend on the order in which
    the [range] over [Data] visits the claims: a key of [Data] has its
    value from [Data], the key [id] has the subject identifier when
    [Data] has no [id], and there is no other key; so any two
    iteration orders give the same credential subject. *)
Theorem credSubjects_order_independent (R : MapRange) (b : Builder W)
    (k : string) :
  credSubjectsOf b !! k
    = match default ∅ (Data b) !! k with
      | Some v => Some v
      | None => if decide (k = SubjectIDAttribute)
                then Some (VString (SubjectDID b)) else None
      end ∧
  @credSubjectsOf W R b = credSubjectsOf b.
Proof.
  split.
  - rewrite credSubjectsOf_union, lookup_union.
    destruct (default ∅ (Data b) !! k) as [v|].
    + by rewrite union_Some_l.
    + rewrite (left_id_L None _). case_decide as Hk.
      * subst k. apply lookup_singleton_eq.
      * by apply lookup_singleton_ne.
  - by rewrite !credSubjectsOf_union.
Qed.

End BuildOutcomes.

(** ** Runs of [Build] on the fixtures *)

Lemma Build_sign_count_witness :
  ∃ n, calls (runBuild twoClaims world0).2
       = calls world0
         ++ replicate n (CallSign (signingSuite (CompSuite ed25519SignatureSuiteV2B64))) ∧
       let claims :=
         size (default ∅ (Data twoClaims)
               ∪ {[ SubjectIDAttribute := VString (SubjectDID twoClaims) ]}) in
       match (runBuild twoClaims world0).1 with
       | Returned (Some _) _ => n = S claims
       | Returned None _ => 0 < n ≤ claims
       | Panicked => False
       end.
Proof.
  apply (Build_sign_count twoClaims world0 (CompSuite ed25519SignatureSuiteV2B64));
    reflexivity.
Defined.

Lemma Build_rejects_without_signing_witness :
  ∃ err, runBuild (testBuilder None EcdsaSecp256k1SignatureType None) world0
         = (Returned None (Some err), world0).
Proof.
  apply (Build_rejects_without_signing
           (testBuilder None EcdsaSecp256k1SignatureType None) world0).
  right. right. right. intros Hin.
  repeat (apply elem_of_cons in Hin as [Hin|Hin]; [discriminate|]).
  by apply elem_of_nil in Hin.
Defined.

Lemma Build_claim_failure_witness :
  let b := testBuilder None Ed25519SignatureType (Some 0) in
  ∃ k v c w1 e,
    Some "signer unavailable" = Some e ∧
    (default ∅ (Data b) ∪ {[ SubjectIDAttribute := VString (SubjectDID b) ]})
      !! k = Some v ∧
    Sign (CompSuite ed25519SignatureSuiteV2B64) (claimCredential testMetadata k v)
      (testSigner (Some 0)) {| ProofPurpose_ := AssertionMethodPurpose |} w1
      = ((c, Some e), (runBuild b world0).2).
Proof.
  intros b.
  apply (Build_claim_failure b world0 (runBuild b world0).2
           (CompSuite ed25519SignatureSuiteV2B64) testMetadata
           (testSigner (Some 0)) (Some "signer unavailable"));
    reflexivity.
Defined.

Lemma Build_returned_credential_witness :
  let cred := credOf (runBuild twoClaims world0) in
  BMetadata twoClaims = Some (vc_Metadata cred) ∧
  CredentialSubject cred
    = default ∅ (Data twoClaims)
      ∪ {[ SubjectIDAttribute := VString (SubjectDID twoClaims) ]} ∧
  SubjectIDAttribute ∈ dom (CredentialSubject cred) ∧
  dom (ClaimProofs cred) = dom (CredentialSubject cred).
Proof.
  intros cred.
  apply (Build_returned_credential twoClaims world0 (runBuild twoClaims world0).2
           cred None).
  vm_compute. reflexivity.
Defined.
